(** * A shallow embedding of src/src/JSONScalar.ts

    The scalar's three entry points ([serialize], [parseValue],
    [parseLiteral]) and the validator [isJSONValue] run on JavaScript
    values.  We model the part of the JavaScript heap they observe:
    objects with a [[Prototype]], an internal kind (ordinary, array exotic,
    function, Date), and own data properties with their attributes.
    Property lookups ([value.constructor], [value.every],
    [value.toISOString]) and [instanceof] walk the prototype chain;
    [obj[k] = v] is the strict-mode [[Set]] including the [__proto__]
    accessor of [Object.prototype].

    Scope of the model: the properties of the values are data properties
    (the only accessor is [Object.prototype.__proto__]), arrays are dense
    (an array lists its elements, with no holes), there are no proxies,
    and the realm's globals ([Object], [Date], [RegExp], [Error],
    [Array.isArray], [Array.prototype.every], [Object.values]) are the
    builtin ones.

    Stack exhaustion is a thrown [RangeError]; the recursion depth of the
    validator is the [fuel] argument of its embedding. *)

From Stdlib Require Import String Ascii List ZArith Bool Lia.
Import ListNotations.
Open Scope string_scope.
Open Scope Z_scope.

Section JSONScalar.

(** The host's numbers and the two numeric parse routines the decoder
    calls ([parseInt(s, 10)] and [parseFloat(s)]): none of the claims
    depends on how a digit string is rounded to a double, so they are
    left as parameters of the whole development. *)
Variable number : Type.
Variable parseInt10 : string -> number.
Variable parseFloat : string -> number.

(** ToBoolean on numbers: [false] exactly on [+0], [-0] and [NaN]. *)
Variable number_truthy : number -> bool.

(** ** Values, exceptions and the heap *)

Definition loc := nat.

Inductive value : Type :=
| VUndef
| VNull
| VBool (b : bool)
| VNum (n : number)
| VStr (s : string)
| VSym (id : nat)
| VBigInt (z : Z)
| VRef (l : loc).

Inductive exn : Type :=
| TypeError (msg : string)
| RangeError (msg : string).

Inductive outcome (A : Type) : Type :=
| Ret (a : A)
| Throw (e : exn).
Arguments Ret {A} a.
Arguments Throw {A} e.

(** A callable object: the builtin [Date.prototype.toISOString], or any
    other function, which we describe by the completion it produces. *)
Inductive fn_kind : Type :=
| FnToISOString
| FnUser (result : outcome value).

(** The internal kind of an object.  [KArray] lists the elements of an
    array exotic object; its index and [length] properties are not
    repeated in [o_props].  [KDate tv] carries the [[DateValue]] slot,
    [None] being the invalid time value NaN. *)
Inductive okind : Type :=
| KOrdinary
| KArray (elems : list value)
| KFunction (f : fn_kind)
| KDate (tv : option Z).

Record prop : Type := mkProp {
  p_value : value;
  p_writable : bool;
  p_enumerable : bool
}.

Record obj : Type := mkObj {
  o_proto : value;
  o_kind : okind;
  o_props : list (string * prop)
}.

Definition heap := list obj.

(** The host's [String(value)], used to render a rejected value. *)
Variable js_String : heap -> value -> outcome string.

(** ** The realm: the builtin objects at fixed locations *)

Definition loc_ObjectProto : loc := 0%nat.
Definition loc_Object : loc := 1%nat.
Definition loc_FunctionProto : loc := 2%nat.
Definition loc_ArrayProto : loc := 3%nat.
Definition loc_Array : loc := 4%nat.
Definition loc_DateProto : loc := 5%nat.
Definition loc_Date : loc := 6%nat.
Definition loc_RegExpProto : loc := 7%nat.
Definition loc_RegExp : loc := 8%nat.
Definition loc_ErrorProto : loc := 9%nat.
Definition loc_Error : loc := 10%nat.
Definition loc_toISOString : loc := 11%nat.

Definition builtin_prop (v : value) : prop := mkProp v true false.
Definition data_prop (v : value) : prop := mkProp v true true.
Definition ctor_fn (proto : loc) : obj :=
  mkObj (VRef loc_FunctionProto) (KFunction (FnUser (Ret VUndef)))
        [("prototype", mkProp (VRef proto) false false)].
Definition proto_obj (k : okind) (ctor : loc) : obj :=
  mkObj (VRef loc_ObjectProto) k [("constructor", builtin_prop (VRef ctor))].

Definition realm : heap :=
  [ mkObj VNull KOrdinary [("constructor", builtin_prop (VRef loc_Object))];
    ctor_fn loc_ObjectProto;
    mkObj (VRef loc_ObjectProto) (KFunction (FnUser (Ret VUndef))) [];
    proto_obj (KArray []) loc_Array;
    ctor_fn loc_ArrayProto;
    mkObj (VRef loc_ObjectProto) KOrdinary
          [("constructor", builtin_prop (VRef loc_Date));
           ("toISOString", builtin_prop (VRef loc_toISOString))];
    ctor_fn loc_DateProto;
    proto_obj KOrdinary loc_RegExp;
    ctor_fn loc_RegExpProto;
    proto_obj KOrdinary loc_Error;
    ctor_fn loc_ErrorProto;
    mkObj (VRef loc_FunctionProto) (KFunction FnToISOString) [] ]%list.

(** ** Heap primitives *)

Definition lookup (h : heap) (l : loc) : option obj := nth_error h l.

Fixpoint replace_nth {A} (n : nat) (x : A) (xs : list A) : list A :=
  match xs, n with
  | [], _ => []
  | _ :: r, O => x :: r
  | y :: r, S n' => y :: replace_nth n' x r
  end.

Definition update (h : heap) (l : loc) (o : obj) : heap := replace_nth l o h.

Definition alloc (h : heap) (o : obj) : loc * heap := (length h, (h ++ [o])%list).

Fixpoint assoc (k : string) (ps : list (string * prop)) : option prop :=
  match ps with
  | [] => None
  | (k', p) :: r => if String.eqb k k' then Some p else assoc k r
  end.

Definition own_prop (o : obj) (k : string) : option prop := assoc k (o_props o).

Definition is_callable (o : obj) : bool :=
  match o_kind o with KFunction _ => true | _ => false end.

Definition is_ref_to (v : value) (l : loc) : bool :=
  match v with VRef l' => Nat.eqb l l' | _ => false end.

(** Prototype chains are acyclic (the host refuses to create a cycle), so a
    walk visits at most [length h] objects; [length h] bounds the walks
    below. *)

(** [o[k]] for a data property [k]: the first own property along the
    chain, [undefined] when the chain ends. *)
Fixpoint get_walk (fuel : nat) (h : heap) (l : loc) (k : string) : value :=
  match fuel with
  | O => VUndef
  | S fuel' =>
      match lookup h l with
      | None => VUndef
      | Some o =>
          match own_prop o k with
          | Some p => p_value p
          | None =>
              match o_proto o with
              | VRef l' => get_walk fuel' h l' k
              | _ => VUndef
              end
          end
      end
  end.

Definition get (h : heap) (v : value) (k : string) : value :=
  match v with VRef l => get_walk (length h) h l k | _ => VUndef end.

(** OrdinaryHasInstance: is [P] on the prototype chain of [v]? *)
Fixpoint proto_chain_has (fuel : nat) (h : heap) (p : value) (target : loc) : bool :=
  match fuel with
  | O => false
  | S fuel' =>
      match p with
      | VRef l =>
          Nat.eqb l target ||
          match lookup h l with
          | Some o => proto_chain_has fuel' h (o_proto o) target
          | None => false
          end
      | _ => false
      end
  end.

Definition instanceof (h : heap) (v : value) (proto : loc) : bool :=
  match v with
  | VRef l =>
      match lookup h l with
      | Some o => proto_chain_has (length h) h (o_proto o) proto
      | None => false
      end
  | _ => false
  end.

(** ** [Object.values]

    [[OwnPropertyKeys]] of an ordinary object lists the array-index keys
    (canonical numerals below 2^32 - 1) in ascending order, then the other
    string keys in creation order; [Object.values] keeps the enumerable
    ones. *)

Fixpoint digits_val (s : string) (acc : Z) : option Z :=
  match s with
  | EmptyString => Some acc
  | String c r =>
      let d := Z.of_nat (nat_of_ascii c) - 48 in
      if (0 <=? d) && (d <=? 9) then digits_val r (acc * 10 + d) else None
  end.

Definition array_index (s : string) : option Z :=
  match s with
  | EmptyString => None
  | String "0" EmptyString => Some 0
  | String "0" _ => None
  | _ =>
      match digits_val s 0 with
      | Some n => if n <? 4294967295 then Some n else None
      | None => None
      end
  end.

Fixpoint insert_by_index (n : Z) (kp : string * prop)
    (xs : list (Z * (string * prop))) : list (Z * (string * prop)) :=
  match xs with
  | [] => [(n, kp)]
  | (m, kp') :: r =>
      if n <? m then (n, kp) :: xs else (m, kp') :: insert_by_index n kp r
  end.

Fixpoint index_keys (ps : list (string * prop)) : list (Z * (string * prop)) :=
  match ps with
  | [] => []
  | kp :: r =>
      match array_index (fst kp) with
      | Some n => insert_by_index n kp (index_keys r)
      | None => index_keys r
      end
  end.

Definition own_property_keys (ps : list (string * prop)) : list (string * prop) :=
  (map snd (index_keys ps)
   ++ filter (fun kp => match array_index (fst kp) with Some _ => false | None => true end) ps)%list.

Definition object_values (o : obj) : list value :=
  map (fun kp => p_value (snd kp))
      (filter (fun kp => p_enumerable (snd kp)) (own_property_keys (o_props o))).

(** ** [Date.prototype.toISOString]

    Days since the epoch to a proleptic Gregorian date (the civil-from-days
    algorithm, with floor division), then the fixed-width fields; years
    outside 0..9999 use the expanded six-digit form with a sign. *)

Definition ms_per_day : Z := 86400000.

Definition civil_from_days (days : Z) : Z * Z * Z :=
  let z := days + 719468 in
  let era := z / 146097 in
  let doe := z - era * 146097 in
  let yoe := (doe - doe / 1460 + doe / 36524 - doe / 146096) / 365 in
  let y := yoe + era * 400 in
  let doy := doe - (365 * yoe + yoe / 4 - yoe / 100) in
  let mp := (5 * doy + 2) / 153 in
  let d := doy - (153 * mp + 2) / 5 + 1 in
  let m := if mp <? 10 then mp + 3 else mp - 9 in
  (if m <=? 2 then y + 1 else y, m, d).

Definition digit_char (d : Z) : ascii := ascii_of_nat (48 + Z.to_nat d).

Fixpoint pad (w : nat) (n : Z) : string :=
  match w with
  | O => ""
  | S w' => pad w' (n / 10) ++ String (digit_char (n mod 10)) ""
  end.

Definition iso_string (t : Z) : string :=
  let days := t / ms_per_day in
  let ms := t mod ms_per_day in
  let '(y, mo, d) := civil_from_days days in
  let ys := if (0 <=? y) && (y <=? 9999) then pad 4 y
            else (if y <? 0 then "-" else "+") ++ pad 6 (Z.abs y) in
  ys ++ "-" ++ pad 2 mo ++ "-" ++ pad 2 d ++ "T" ++ pad 2 (ms / 3600000) ++ ":"
     ++ pad 2 ((ms / 60000) mod 60) ++ ":" ++ pad 2 ((ms / 1000) mod 60) ++ "."
     ++ pad 3 (ms mod 1000) ++ "Z".

Definition max_time : Z := 8640000000000000.

Definition date_proto_toISOString (h : heap) (this : value) : outcome value :=
  match this with
  | VRef l =>
      match lookup h l with
      | Some o =>
          match o_kind o with
          | KDate (Some t) =>
              if Z.abs t <=? max_time then Ret (VStr (iso_string t))
              else Throw (RangeError "Invalid time value")
          | KDate None => Throw (RangeError "Invalid time value")
          | _ => Throw (TypeError "this is not a Date object.")
          end
      | None => Throw (TypeError "this is not a Date object.")
      end
  | _ => Throw (TypeError "this is not a Date object.")
  end.

(** [value.toISOString()]: look the method up and call it. *)
Definition call_toISOString (h : heap) (v : value) : outcome value :=
  match get h v "toISOString" with
  | VRef m =>
      match lookup h m with
      | Some o =>
          match o_kind o with
          | KFunction FnToISOString => date_proto_toISOString h v
          | KFunction (FnUser r) => r
          | _ => Throw (TypeError "value.toISOString is not a function")
          end
      | None => Throw (TypeError "value.toISOString is not a function")
      end
  | _ => Throw (TypeError "value.toISOString is not a function")
  end.

(** ** The validator [isJSONValue] (src/src/JSONScalar.ts, lines 134-180) *)

Definition stack_overflow : exn := RangeError "Maximum call stack size exceeded".

(** The builtin [Array.prototype.every] on a list of elements, with a
    callback that may throw: stops at the first [false] or exception. *)
Fixpoint every (f : value -> outcome bool) (xs : list value) : outcome bool :=
  match xs with
  | [] => Ret true
  | x :: r =>
      match f x with
      | Ret true => every f r
      | Ret false => Ret false
      | Throw e => Throw e
      end
  end.

Definition is_undefined (v : value) : bool :=
  match v with VUndef => true | _ => false end.

(** ToBoolean. *)
Definition to_boolean (v : value) : bool :=
  match v with
  | VUndef | VNull => false
  | VBool b => b
  | VNum n => number_truthy n
  | VStr s => negb (String.eqb s "")
  | VSym _ => true
  | VBigInt z => negb (Z.eqb z 0)
  | VRef _ => true
  end.

Definition truthy (r : outcome value) : outcome bool :=
  match r with Ret x => Ret (to_boolean x) | Throw e => Throw e end.

(** The method [value.every] of an array: the first own [every] along its
    prototype chain.  The realm's [Array.prototype] holds the builtin
    method, which is not replaced; an [every] defined on the array itself
    or on a prototype in front of [Array.prototype] (a subclass) shadows
    it.  The builtin method is not itself a value of the model, so a
    shadowing [every] is a function of the program's user, or any other
    value. *)
Inductive every_method : Type :=
| EveryBuiltin
| EveryValue (m : value).

Fixpoint every_walk (fuel : nat) (h : heap) (l : loc) : every_method :=
  match fuel with
  | O => EveryValue VUndef
  | S fuel' =>
      if Nat.eqb l loc_ArrayProto then EveryBuiltin
      else
        match lookup h l with
        | None => EveryValue VUndef
        | Some o =>
            match own_prop o "every" with
            | Some p => EveryValue (p_value p)
            | None =>
                match o_proto o with
                | VRef l' => every_walk fuel' h l'
                | _ => EveryValue VUndef
                end
            end
        end
  end.

Definition get_every (h : heap) (l : loc) : every_method := every_walk (length h) h l.

(** Calling an [every] that is not the builtin, with [this] the array.
    The value returned by [isJSONValue] only matters through ToBoolean
    (in [!isJSONValue(value)] and in the builtin [every]), so the
    validator records that truth value.  A function of the program's user
    is described by its completion, whatever callback it is passed. *)
Definition call_every (h : heap) (this m : value) : outcome bool :=
  match m with
  | VRef f =>
      match lookup h f with
      | Some fo =>
          match o_kind fo with
          | KFunction (FnUser r) => truthy r
          | KFunction FnToISOString => truthy (date_proto_toISOString h this)
          | _ => Throw (TypeError "value.every is not a function")
          end
      | None => Throw (TypeError "value.every is not a function")
      end
  | _ => Throw (TypeError "value.every is not a function")
  end.

(** [Object.values(value)] is a fresh array of the realm, whose [every]
    is the builtin one. *)
Fixpoint isJSONValue (fuel : nat) (h : heap) (v : value) : outcome bool :=
  match fuel with
  | O => Throw stack_overflow
  | S fuel' =>
      match v with
      | VNull => Ret true
      | VStr _ | VNum _ | VBool _ => Ret true
      | VUndef | VSym _ => Ret false
      | VBigInt _ => Ret false
      | VRef l =>
          match lookup h l with
          | None => Ret false (* a dangling location: not built by the host *)
          | Some o =>
              if is_callable o then Ret false
              else if instanceof h v loc_DateProto || instanceof h v loc_RegExpProto
                      || instanceof h v loc_ErrorProto then Ret false
              else
                match o_kind o with
                | KArray elems =>
                    match get_every h l with
                    | EveryBuiltin => every (isJSONValue fuel' h) elems
                    | EveryValue m => call_every h v m
                    end
                | _ =>
                    let c := get h v "constructor" in
                    if negb (is_ref_to c loc_Object) && negb (is_undefined c) then Ret false
                    else every (isJSONValue fuel' h) (object_values o)
                end
          end
      end
  end.

(** ** [serialize] and [parseValue] (lines 8-23 and 28-43) *)

Definition reject_message (s : string) : string :=
  "JSON cannot represent value: " ++ s ++ "."
  ++ "Only plain objects, arrays, and primitives are supported.".

Definition serialize (fuel : nat) (h : heap) (v : value) : outcome value :=
  if instanceof h v loc_DateProto then call_toISOString h v
  else
    match isJSONValue fuel h v with
    | Ret true => Ret v
    | Ret false =>
        match js_String h v with
        | Ret s => Throw (TypeError (reject_message s))
        | Throw e => Throw e
        end
    | Throw e => Throw e
    end.

Definition parseValue (fuel : nat) (h : heap) (v : value) : outcome value :=
  if instanceof h v loc_DateProto then call_toISOString h v
  else
    match isJSONValue fuel h v with
    | Ret true => Ret v
    | Ret false =>
        match js_String h v with
        | Ret s => Throw (TypeError (reject_message s))
        | Throw e => Throw e
        end
    | Throw e => Throw e
    end.

(** ** A state and exception monad over the heap *)

Definition M (A : Type) : Type := heap -> outcome A * heap.

Definition mret {A} (a : A) : M A := fun h => (Ret a, h).
Definition mthrow {A} (e : exn) : M A := fun h => (Throw e, h).
Definition mbind {A B} (m : M A) (f : A -> M B) : M B :=
  fun h => match m h with
           | (Ret a, h') => f a h'
           | (Throw e, h') => (Throw e, h')
           end.
Definition mlift {A} (r : heap -> outcome heap) (a : A) : M A :=
  fun h => match r h with
           | Ret h' => (Ret a, h')
           | Throw e => (Throw e, h)
           end.

Notation "x <- m ;; k" := (mbind m (fun x => k))
  (at level 61, m at next level, right associativity).

(** ** Property assignment [o[k] = v] in strict mode *)

(** CreateDataProperty / update of an own data property of the receiver. *)
Definition define_on_receiver (h : heap) (r : loc) (k : string) (v : value) : outcome heap :=
  match lookup h r with
  | None => Ret h
  | Some o =>
      match own_prop o k with
      | Some p =>
          if p_writable p then
            Ret (update h r (mkObj (o_proto o) (o_kind o)
                   (map (fun kp => if String.eqb (fst kp) k
                                   then (k, mkProp v (p_writable p) (p_enumerable p)) else kp)
                        (o_props o))))
          else Throw (TypeError ("Cannot assign to read only property '" ++ k ++ "' of object"))
      | None =>
          Ret (update h r (mkObj (o_proto o) (o_kind o) (o_props o ++ [(k, data_prop v)])%list))
      end
  end.

(** The setter of [Object.prototype.__proto__]: a non-object, non-null
    argument is ignored; otherwise OrdinarySetPrototypeOf, which refuses
    to close a cycle. *)
Definition proto_setter (h : heap) (r : loc) (v : value) : outcome heap :=
  match v with
  | VNull | VRef _ =>
      if proto_chain_has (length h) h v r then Throw (TypeError "Cyclic __proto__ value")
      else
        match lookup h r with
        | Some o => Ret (update h r (mkObj v (o_kind o) (o_props o)))
        | None => Ret h
        end
  | _ => Ret h
  end.

(** OrdinarySet with the receiver [r], walking from [cur] up the chain.
    The only accessor property of the model is [__proto__] on
    [Object.prototype]. *)
Fixpoint set_walk (fuel : nat) (h : heap) (cur r : loc) (k : string) (v : value)
    : outcome heap :=
  match fuel with
  | O => Ret h
  | S fuel' =>
      match lookup h cur with
      | None => Ret h
      | Some o =>
          if Nat.eqb cur loc_ObjectProto && String.eqb k "__proto__" then proto_setter h r v
          else
            match own_prop o k with
            | Some p =>
                if p_writable p then define_on_receiver h r k v
                else Throw (TypeError ("Cannot assign to read only property '" ++ k ++ "' of object"))
            | None =>
                match o_proto o with
                | VRef parent => set_walk fuel' h parent r k v
                | _ => define_on_receiver h r k v
                end
            end
      end
  end.

Definition set_prop (h : heap) (r : loc) (k : string) (v : value) : outcome heap :=
  set_walk (length h) h r r k v.

(** ** [parseLiteral] (lines 49-84) *)

#[local] Set Warnings "-register-all".
Inductive valueNode : Type :=
| VariableNode (name : string)
| IntValue (v : string)
| FloatValue (v : string)
| StringValue (v : string)
| BooleanValue (v : bool)
| NullValue
| EnumValue (v : string)
| ListValue (values : list valueNode)
| ObjectValue (fields : list (string * valueNode)).

(** The [kind] tag of a node ([Kind.*] of graphql-js). *)
Definition kind (ast : valueNode) : string :=
  match ast with
  | VariableNode _ => "Variable"
  | IntValue _ => "IntValue"
  | FloatValue _ => "FloatValue"
  | StringValue _ => "StringValue"
  | BooleanValue _ => "BooleanValue"
  | NullValue => "NullValue"
  | EnumValue _ => "EnumValue"
  | ListValue _ => "ListValue"
  | ObjectValue _ => "ObjectValue"
  end.

Definition literal_message (k : string) : string :=
  "JSON cannot represent value: " ++ k ++ "."
  ++ "Only StringValue, IntValue, FloatValue, BooleanValue, NullValue, ObjectValue, and ListValue are supported".

Definition plain_object : obj := mkObj (VRef loc_ObjectProto) KOrdinary [].

(** Store the elements produced by [map] in the array it created first. *)
Definition set_elems (l : loc) (es : list value) : M unit :=
  fun h => match lookup h l with
           | Some o => (Ret tt, update h l (mkObj (o_proto o) (KArray es) (o_props o)))
           | None => (Ret tt, h)
           end.

Fixpoint parseLiteral (ast : valueNode) : M value :=
  match ast with
  | StringValue s => mret (VStr s)
  | IntValue s => mret (VNum (parseInt10 s))
  | FloatValue s => mret (VNum (parseFloat s))
  | BooleanValue b => mret (VBool b)
  | NullValue => mret VNull
  | ListValue vals =>
      let fix map_parse (xs : list valueNode) : M (list value) :=
        match xs with
        | [] => mret []
        | x :: r => y <- parseLiteral x ;; ys <- map_parse r ;; mret (y :: ys)
        end in
      l <- (fun h => let '(l, h') := alloc h (mkObj (VRef loc_ArrayProto) (KArray []) []) in
                     (Ret l, h')) ;;
      es <- map_parse vals ;;
      _ <- set_elems l es ;;
      mret (VRef l)
  | ObjectValue fields =>
      let fix set_fields (l : loc) (fs : list (string * valueNode)) : M value :=
        match fs with
        | [] => mret (VRef l)
        | (name, n) :: r =>
            v <- parseLiteral n ;;
            _ <- mlift (fun h => set_prop h l name v) tt ;;
            set_fields l r
        end in
      l <- (fun h => let '(l, h') := alloc h plain_object in (Ret l, h')) ;;
      set_fields l fields
  | VariableNode _ | EnumValue _ => mthrow (TypeError (literal_message (kind ast)))
  end.

(** ** The JSON-Value domain, as the spec's ordered rules state it (4.1) *)

(** A date, regular-expression or error object, by [instanceof]. *)
Definition excluded_instance (h : heap) (v : value) : bool :=
  instanceof h v loc_DateProto || instanceof h v loc_RegExpProto
  || instanceof h v loc_ErrorProto.

Definition is_array_kind (k : okind) : bool :=
  match k with KArray _ => true | _ => false end.

(** The constructor identity is the generic [Object], or there is none. *)
Definition constructor_ok (h : heap) (v : value) : bool :=
  is_ref_to (get h v "constructor") loc_Object || is_undefined (get h v "constructor").

Inductive json_domain (h : heap) : value -> Prop :=
| JD_null : json_domain h VNull
| JD_string s : json_domain h (VStr s)
| JD_number n : json_domain h (VNum n)
| JD_bool b : json_domain h (VBool b)
| JD_array l o es :
    lookup h l = Some o -> o_kind o = KArray es ->
    excluded_instance h (VRef l) = false ->
    json_all h es -> json_domain h (VRef l)
| JD_object l o :
    lookup h l = Some o -> is_callable o = false -> is_array_kind (o_kind o) = false ->
    excluded_instance h (VRef l) = false -> constructor_ok h (VRef l) = true ->
    json_all h (object_values o) -> json_domain h (VRef l)
with json_all (h : heap) : list value -> Prop :=
| JA_nil : json_all h []
| JA_cons v vs : json_domain h v -> json_all h vs -> json_all h (v :: vs).

Scheme json_domain_mut := Induction for json_domain Sort Prop
  with json_all_mut := Induction for json_all Sort Prop.

(** The values the validator descends into from an object. *)
Definition children (o : obj) : list value :=
  match o_kind o with KArray es => es | _ => object_values o end.

(** No cycle is reachable from [v]: the graph below [v] unfolds to a
    finite tree. *)
Inductive acyclic (h : heap) : value -> Prop :=
| AC_prim v : (forall l, v <> VRef l) -> acyclic h v
| AC_ref l o : lookup h l = Some o -> acyclic_all h (children o) -> acyclic h (VRef l)
with acyclic_all (h : heap) : list value -> Prop :=
| AA_nil : acyclic_all h []
| AA_cons v vs : acyclic h v -> acyclic_all h vs -> acyclic_all h (v :: vs).

Scheme acyclic_mut := Induction for acyclic Sort Prop
  with acyclic_all_mut := Induction for acyclic_all Sort Prop.

(** With a large enough call stack, [isJSONValue] returns [b]. *)
Definition returns (h : heap) (v : value) (b : bool) : Prop :=
  exists n, forall fuel, (n <= fuel)%nat -> isJSONValue fuel h v = Ret b.

(** A Date object whose [toISOString] is the builtin one. *)
Definition builtin_toISOString (h : heap) (v : value) : Prop :=
  get h v "toISOString" = VRef loc_toISOString /\
  exists f, lookup h loc_toISOString = Some f /\ o_kind f = KFunction FnToISOString.

(** The array at [l] inherits the builtin [Array.prototype.every]. *)
Definition uses_builtin_every (h : heap) (l : loc) : bool :=
  match get_every h l with EveryBuiltin => true | EveryValue _ => false end.

(** No array of the heap has an [every] of its own or from a prototype in
    front of [Array.prototype]. *)
Definition builtin_every (h : heap) : bool :=
  forallb (fun l => match lookup h l with
                    | Some o => negb (is_array_kind (o_kind o)) || uses_builtin_every h l
                    | None => true
                    end) (seq 0 (length h)).

(** The domain with, in addition, the builtin [every] on each array: the
    values on which the validator runs its own checks all the way down. *)
Inductive json_domain_std (h : heap) : value -> Prop :=
| JS_null : json_domain_std h VNull
| JS_string s : json_domain_std h (VStr s)
| JS_number n : json_domain_std h (VNum n)
| JS_bool b : json_domain_std h (VBool b)
| JS_array l o es :
    lookup h l = Some o -> o_kind o = KArray es ->
    excluded_instance h (VRef l) = false -> get_every h l = EveryBuiltin ->
    json_all_std h es -> json_domain_std h (VRef l)
| JS_object l o :
    lookup h l = Some o -> is_callable o = false -> is_array_kind (o_kind o) = false ->
    excluded_instance h (VRef l) = false -> constructor_ok h (VRef l) = true ->
    json_all_std h (object_values o) -> json_domain_std h (VRef l)
with json_all_std (h : heap) : list value -> Prop :=
| JAS_nil : json_all_std h []
| JAS_cons v vs : json_domain_std h v -> json_all_std h vs -> json_all_std h (v :: vs).

Scheme json_domain_std_mut := Induction for json_domain_std Sort Prop
  with json_all_std_mut := Induction for json_all_std Sort Prop.

(** ** Helper lemmas *)

Lemma isJSONValue_ref fuel h l :
  isJSONValue (S fuel) h (VRef l) =
  match lookup h l with
  | None => Ret false
  | Some o =>
      if is_callable o then Ret false
      else if excluded_instance h (VRef l) then Ret false
      else
        match o_kind o with
        | KArray elems =>
            match get_every h l with
            | EveryBuiltin => every (isJSONValue fuel h) elems
            | EveryValue m => call_every h (VRef l) m
            end
        | _ =>
            if negb (constructor_ok h (VRef l)) then Ret false
            else every (isJSONValue fuel h) (object_values o)
        end
  end.
Proof.
  cbn [isJSONValue]. destruct (lookup h l) as [o|]; [|reflexivity].
  unfold excluded_instance, constructor_ok.
  destruct (is_callable o); [reflexivity|].
  destruct (instanceof h (VRef l) loc_DateProto || instanceof h (VRef l) loc_RegExpProto
            || instanceof h (VRef l) loc_ErrorProto); [reflexivity|].
  destruct (o_kind o); try reflexivity;
    destruct (is_ref_to (get h (VRef l) "constructor") loc_Object),
      (is_undefined (get h (VRef l) "constructor")); reflexivity.
Qed.

Lemma every_true f xs : every f xs = Ret true -> Forall (fun x => f x = Ret true) xs.
Proof.
  induction xs as [|x r IH]; simpl; intros H; [constructor|].
  destruct (f x) as [[|]|e] eqn:E; try discriminate. constructor; auto.
Qed.

Lemma every_mono (f g : value -> outcome bool) xs b :
  (forall x b', In x xs -> f x = Ret b' -> g x = Ret b') ->
  every f xs = Ret b -> every g xs = Ret b.
Proof.
  induction xs as [|x r IH]; simpl; intros Hfg H; [exact H|].
  destruct (f x) as [[|]|e] eqn:E; try discriminate.
  - rewrite (Hfg x true (or_introl eq_refl) E). apply IH; auto.
  - rewrite (Hfg x false (or_introl eq_refl) E). exact H.
Qed.

Lemma isJSONValue_mono fuel h v b :
  isJSONValue fuel h v = Ret b ->
  forall fuel', (fuel <= fuel')%nat -> isJSONValue fuel' h v = Ret b.
Proof.
  revert v b. induction fuel as [|f IH]; intros v b H fuel' Hle; [discriminate|].
  destruct fuel' as [|f']; [lia|].
  destruct v; try exact H.
  rewrite isJSONValue_ref in H |- *.
  destruct (lookup h l) as [o|]; [|exact H].
  destruct (is_callable o), (excluded_instance h (VRef l)); try exact H.
  destruct (o_kind o);
    try (destruct (get_every h l); [|exact H]);
    try (destruct (negb (constructor_ok h (VRef l))); [exact H|]);
    (eapply every_mono; [|exact H]); intros x b' _ Hx; apply (IH x b' Hx); lia.
Qed.

Lemma json_all_of_Forall h xs :
  Forall (json_domain h) xs -> json_all h xs.
Proof. induction 1; constructor; auto. Qed.

Lemma json_all_std_of_Forall h xs :
  Forall (json_domain_std h) xs -> json_all_std h xs.
Proof. induction 1; constructor; auto. Qed.

Lemma builtin_every_at h l o es :
  builtin_every h = true -> lookup h l = Some o -> o_kind o = KArray es ->
  get_every h l = EveryBuiltin.
Proof.
  intros Hb Hl Hk. unfold builtin_every in Hb. rewrite forallb_forall in Hb.
  assert (Hin : In l (seq 0 (length h))).
  { apply in_seq. split; [lia|]. simpl. apply nth_error_Some. unfold lookup in Hl.
    rewrite Hl. discriminate. }
  specialize (Hb l Hin). rewrite Hl, Hk in Hb. simpl in Hb.
  unfold uses_builtin_every in Hb. destruct (get_every h l); [reflexivity|discriminate].
Qed.

Lemma returns_true_domain fuel h v :
  builtin_every h = true -> isJSONValue fuel h v = Ret true -> json_domain h v.
Proof.
  intros Hb. revert v. induction fuel as [|f IH]; intros v H; [discriminate|].
  destruct v; try discriminate; try constructor.
  rewrite isJSONValue_ref in H.
  destruct (lookup h l) as [o|] eqn:Hl; [|discriminate].
  destruct (is_callable o) eqn:Hc; [discriminate|].
  destruct (excluded_instance h (VRef l)) eqn:Hx; [discriminate|].
  destruct (o_kind o) eqn:Hk;
    try (destruct (negb (constructor_ok h (VRef l))) eqn:Hn; [discriminate|]).
  - eapply JD_object; eauto; [rewrite Hk; reflexivity | now destruct (constructor_ok _ _) |].
    apply json_all_of_Forall. eapply Forall_impl; [|apply every_true; exact H]. auto.
  - rewrite (builtin_every_at h l o elems Hb Hl Hk) in H.
    eapply JD_array; eauto.
    apply json_all_of_Forall. eapply Forall_impl; [|apply every_true; exact H]. auto.
  - unfold is_callable in Hc. rewrite Hk in Hc. discriminate.
  - eapply JD_object; eauto; [rewrite Hk; reflexivity | now destruct (constructor_ok _ _) |].
    apply json_all_of_Forall. eapply Forall_impl; [|apply every_true; exact H]. auto.
Qed.

Lemma std_domain_returns_true h :
  (forall v, json_domain_std h v -> returns h v true) /\
  (forall es, json_all_std h es ->
     exists n, forall fuel, (n <= fuel)%nat -> every (isJSONValue fuel h) es = Ret true).
Proof.
  set (P := fun v (_ : json_domain_std h v) => returns h v true).
  set (Q := fun es (_ : json_all_std h es) =>
     exists n, forall fuel, (n <= fuel)%nat -> every (isJSONValue fuel h) es = Ret true).
  assert (Hnil : Q [] (JAS_nil h)) by (exists 0%nat; reflexivity).
  assert (Hcons : forall v vs (d : json_domain_std h v), P v d ->
            forall (a : json_all_std h vs), Q vs a -> Q (v :: vs) (JAS_cons h v vs d a)).
  { intros v vs d IH1 a IH2. unfold P, Q in *; cbv beta in *. clear d a.
    destruct IH1 as [n1 H1], IH2 as [n2 H2]. exists (Nat.max n1 n2). intros fuel Hle.
    simpl. rewrite (H1 fuel) by lia. apply H2; lia. }
  assert (Harr : forall l o es (e : lookup h l = Some o) (e0 : o_kind o = KArray es)
            (e1 : excluded_instance h (VRef l) = false) (e2 : get_every h l = EveryBuiltin)
            (a : json_all_std h es),
            Q es a -> P (VRef l) (JS_array h l o es e e0 e1 e2 a)).
  { intros l o es Hl Hk Hx He a IH. unfold P, Q, returns in *; cbv beta in *. clear a.
    destruct IH as [n Hn]. exists (S n). intros [|f] Hle; [lia|].
    rewrite isJSONValue_ref, Hl. unfold is_callable. rewrite Hk, Hx, He. apply Hn; lia. }
  assert (Hobj : forall l o (e : lookup h l = Some o) (e0 : is_callable o = false)
            (e1 : is_array_kind (o_kind o) = false) (e2 : excluded_instance h (VRef l) = false)
            (e3 : constructor_ok h (VRef l) = true) (a : json_all_std h (object_values o)),
            Q (object_values o) a -> P (VRef l) (JS_object h l o e e0 e1 e2 e3 a)).
  { intros l o Hl Hc Ha Hx Hok a IH. unfold P, Q, returns in *; cbv beta in *. clear a.
    destruct IH as [n Hn]. exists (S n). intros [|f] Hle; [lia|].
    rewrite isJSONValue_ref, Hl, Hc, Hx, Hok.
    destruct (o_kind o); simpl in Ha; try discriminate; simpl; apply Hn; lia. }
  split.
  - apply (json_domain_std_mut h P Q); try assumption;
      intros; exists 1%nat; intros [|f] Hle; (lia || reflexivity).
  - apply (json_all_std_mut h P Q); try assumption;
      intros; exists 1%nat; intros [|f] Hle; (lia || reflexivity).
Qed.

Lemma std_json h :
  (forall v, json_domain_std h v -> json_domain h v) /\
  (forall es, json_all_std h es -> json_all h es).
Proof.
  split; [apply (json_domain_std_mut h (fun v _ => json_domain h v) (fun es _ => json_all h es))
         |apply (json_all_std_mut h (fun v _ => json_domain h v) (fun es _ => json_all h es))];
    intros; first [constructor; assumption | eapply JD_array; eassumption
                  | eapply JD_object; eassumption | constructor].
Qed.

Lemma json_std h :
  builtin_every h = true ->
  (forall v, json_domain h v -> json_domain_std h v) /\
  (forall es, json_all h es -> json_all_std h es).
Proof.
  intros Hb.
  split; [apply (json_domain_mut h (fun v _ => json_domain_std h v) (fun es _ => json_all_std h es))
         |apply (json_all_mut h (fun v _ => json_domain_std h v) (fun es _ => json_all_std h es))];
    try (intros; first [constructor; assumption | eapply JS_object; eassumption | constructor]; fail);
    intros l o es Hl Hk Hx _ IH; eapply JS_array; eauto; eapply builtin_every_at; eauto.
Qed.

Lemma domain_returns_true h v :
  builtin_every h = true -> json_domain h v -> returns h v true.
Proof.
  intros Hb Hd. apply (proj1 (std_domain_returns_true h)). apply (proj1 (json_std h Hb)). exact Hd.
Qed.

Lemma acyclic_returns h :
  builtin_every h = true ->
  (forall v, acyclic h v -> exists b, returns h v b) /\
  (forall es, acyclic_all h es ->
     exists b n, forall fuel, (n <= fuel)%nat -> every (isJSONValue fuel h) es = Ret b).
Proof.
  intros Hb.
  set (P := fun v (_ : acyclic h v) => exists b, returns h v b).
  set (Q := fun es (_ : acyclic_all h es) =>
     exists b n, forall fuel, (n <= fuel)%nat -> every (isJSONValue fuel h) es = Ret b).
  assert (Hprim : forall v (n : forall l, v <> VRef l), P v (AC_prim h v n)).
  { intros v Hv. unfold P, returns.
    destruct v; try (eexists; exists 1%nat; intros [|f] Hle; [lia|reflexivity]).
    exfalso. exact (Hv l eq_refl). }
  assert (Href : forall l o (e : lookup h l = Some o) (a : acyclic_all h (children o)),
            Q (children o) a -> P (VRef l) (AC_ref h l o e a)).
  { intros l o Hl a IH. unfold P, Q, returns in *; cbv beta in *. clear a.
    destruct IH as [b [n Hn]].
    unfold children in Hn.
    destruct (is_callable o) eqn:Hc.
    { exists false, 1%nat. intros [|f] Hle; [lia|]. rewrite isJSONValue_ref, Hl, Hc.
      reflexivity. }
    destruct (excluded_instance h (VRef l)) eqn:Hx.
    { exists false, 1%nat. intros [|f] Hle; [lia|]. rewrite isJSONValue_ref, Hl, Hc, Hx.
      reflexivity. }
    destruct (o_kind o) eqn:Hk.
    - destruct (negb (constructor_ok h (VRef l))) eqn:Hok.
      + exists false, 1%nat. intros [|m] Hle; [lia|].
        rewrite isJSONValue_ref, Hl, Hc, Hx, Hk, Hok. reflexivity.
      + exists b, (S n). intros [|m] Hle; [lia|].
        rewrite isJSONValue_ref, Hl, Hc, Hx, Hk, Hok. apply Hn; lia.
    - exists b, (S n). intros [|m] Hle; [lia|].
      rewrite isJSONValue_ref, Hl, Hc, Hx, Hk, (builtin_every_at h l o elems Hb Hl Hk).
      apply Hn; lia.
    - unfold is_callable in Hc. rewrite Hk in Hc. discriminate.
    - destruct (negb (constructor_ok h (VRef l))) eqn:Hok.
      + exists false, 1%nat. intros [|m] Hle; [lia|].
        rewrite isJSONValue_ref, Hl, Hc, Hx, Hk, Hok. reflexivity.
      + exists b, (S n). intros [|m] Hle; [lia|].
        rewrite isJSONValue_ref, Hl, Hc, Hx, Hk, Hok. apply Hn; lia. }
  assert (Hnil : Q [] (AA_nil h)) by (exists true, 0%nat; reflexivity).
  assert (Hcons : forall v vs (a : acyclic h v), P v a ->
            forall (a0 : acyclic_all h vs), Q vs a0 -> Q (v :: vs) (AA_cons h v vs a a0)).
  { intros v vs a IH1 a0 IH2. unfold P, Q, returns in *; cbv beta in *. clear a a0.
    destruct IH1 as [b1 [n1 H1]], IH2 as [b2 [n2 H2]].
    exists (if b1 then b2 else false), (Nat.max n1 n2). intros fuel Hle.
    simpl. rewrite (H1 fuel) by lia. destruct b1; [apply H2; lia|reflexivity]. }
  split; [apply (acyclic_mut h P Q) | apply (acyclic_all_mut h P Q)]; assumption.
Qed.

(** A plain object whose only property refers to itself, at location 12,
    and an array holding it, at location 13. *)
Definition cyclic_heap : heap :=
  (realm ++ [mkObj (VRef loc_ObjectProto) KOrdinary [("self", data_prop (VRef 12%nat))];
             mkObj (VRef loc_ArrayProto) (KArray [VRef 12%nat]) []])%list.

Lemma cycle_throws fuel : isJSONValue fuel cyclic_heap (VRef 12%nat) = Throw stack_overflow.
Proof.
  induction fuel as [|f IH]; [reflexivity|].
  rewrite isJSONValue_ref. simpl. rewrite IH. reflexivity.
Qed.

Lemma container_of_cycle_throws fuel :
  isJSONValue fuel cyclic_heap (VRef 13%nat) = Throw stack_overflow.
Proof.
  destruct fuel as [|f]; [reflexivity|].
  rewrite isJSONValue_ref. simpl. rewrite cycle_throws. reflexivity.
Qed.

Lemma isJSONValue_true_not_date fuel h v :
  isJSONValue fuel h v = Ret true -> instanceof h v loc_DateProto = false.
Proof.
  intros H. destruct fuel as [|f]; [discriminate|].
  destruct v; try reflexivity. rewrite isJSONValue_ref in H.
  destruct (lookup h l) as [o|]; [|discriminate].
  destruct (is_callable o); [discriminate|].
  destruct (excluded_instance h (VRef l)) eqn:Hx; [discriminate|].
  unfold excluded_instance in Hx. now apply orb_false_elim in Hx as [Hx _]; apply orb_false_elim in Hx as [Hx _].
Qed.

Lemma converters_of_valid fuel h v :
  isJSONValue fuel h v = Ret true ->
  serialize fuel h v = Ret v /\ parseValue fuel h v = Ret v.
Proof.
  intros H. unfold serialize, parseValue.
  rewrite (isJSONValue_true_not_date fuel h v H), H. split; reflexivity.
Qed.

(** ** Decoder outcomes: the decoder raises no [RangeError] *)

Definition no_range_error {A} (r : outcome A) : Prop :=
  match r with Throw (RangeError _) => False | _ => True end.

Definition M_no_range {A} (m : M A) : Prop := forall h, no_range_error (fst (m h)).

Lemma mbind_no_range {A B} (m : M A) (f : A -> M B) :
  M_no_range m -> (forall a, M_no_range (f a)) -> M_no_range (mbind m f).
Proof.
  intros Hm Hf h. unfold mbind. specialize (Hm h).
  destruct (m h) as [[a|e] h']; simpl in *; [apply Hf | exact Hm].
Qed.

Lemma set_prop_no_range h l k v : no_range_error (set_prop h l k v).
Proof.
  unfold set_prop. generalize (length h) as fuel, l at 1 as cur.
  intros fuel. induction fuel as [|f IH]; intros cur; simpl; [exact I|].
  assert (Hd : no_range_error (define_on_receiver h l k v)).
  { unfold define_on_receiver. destruct (lookup h l) as [o|]; simpl; [|exact I].
    destruct (own_prop o k) as [p|]; simpl; [|exact I]. destruct (p_writable p); exact I. }
  destruct (lookup h cur) as [o|]; [|exact I].
  destruct (Nat.eqb cur loc_ObjectProto && String.eqb k "__proto__").
  - unfold proto_setter. destruct v; try exact I;
      (destruct (proto_chain_has _ _ _ _); [exact I|]); destruct (lookup h l); exact I.
  - destruct (own_prop o k) as [p|]; [destruct (p_writable p); [exact Hd | exact I]|].
    destruct (o_proto o); try exact Hd. apply IH.
Qed.

(** Induction over literal ASTs, with hypotheses for the nested lists. *)
Section ValueNodeInd.
Variable P : valueNode -> Prop.
Hypothesis P_var : forall n, P (VariableNode n).
Hypothesis P_int : forall s, P (IntValue s).
Hypothesis P_float : forall s, P (FloatValue s).
Hypothesis P_string : forall s, P (StringValue s).
Hypothesis P_bool : forall b, P (BooleanValue b).
Hypothesis P_null : P NullValue.
Hypothesis P_enum : forall s, P (EnumValue s).
Hypothesis P_list : forall vs, Forall P vs -> P (ListValue vs).
Hypothesis P_object : forall fs, Forall (fun f => P (snd f)) fs -> P (ObjectValue fs).

Fixpoint valueNode_ind' (ast : valueNode) : P ast :=
  match ast with
  | VariableNode n => P_var n
  | IntValue s => P_int s
  | FloatValue s => P_float s
  | StringValue s => P_string s
  | BooleanValue b => P_bool b
  | NullValue => P_null
  | EnumValue s => P_enum s
  | ListValue vs =>
      P_list vs ((fix go (xs : list valueNode) : Forall P xs :=
                    match xs with
                    | [] => Forall_nil P
                    | x :: r => Forall_cons x (valueNode_ind' x) (go r)
                    end) vs)
  | ObjectValue fs =>
      P_object fs ((fix go (xs : list (string * valueNode)) : Forall (fun f => P (snd f)) xs :=
                      match xs with
                      | [] => Forall_nil _
                      | x :: r => Forall_cons x (valueNode_ind' (snd x)) (go r)
                      end) fs)
  end.
End ValueNodeInd.

Lemma parseLiteral_no_range ast : M_no_range (parseLiteral ast).
Proof.
  induction ast as [n|s|s|s|b| |s|vs IH|fs IH] using valueNode_ind';
    try (intros h; exact I).
  - simpl. apply mbind_no_range; [intros h; exact I|]. intros l.
    apply mbind_no_range.
    + induction IH as [|x r Hx _ IHr]; [intros h; exact I|].
      apply mbind_no_range; [exact Hx|]. intros y.
      apply mbind_no_range; [exact IHr|]. intros ys h. exact I.
    + intros es. apply mbind_no_range; [|intros _ h; exact I].
      intros h. unfold set_elems. destruct (lookup h l); exact I.
  - simpl. apply mbind_no_range; [intros h; exact I|]. intros l.
    induction IH as [|[name n] r Hx _ IHr]; [intros h; exact I|].
    apply mbind_no_range; [exact Hx|]. intros v.
    apply mbind_no_range; [|intros _; exact IHr].
    intros h. unfold mlift. pose proof (set_prop_no_range h l name v) as Hs.
    destruct (set_prop h l name v); simpl in *; [exact I | exact Hs].
Qed.

(** ** The claims *)

(** The seven literal kinds the decoder supports. *)
Definition supported_kind (k : string) : bool :=
  existsb (String.eqb k)
    ["StringValue"; "IntValue"; "FloatValue"; "BooleanValue"; "NullValue";
     "ListValue"; "ObjectValue"].

(** C1 (amended): in a heap where every array uses the builtin
    [Array.prototype.every], and given a large enough stack,
    [isJSONValue] returns [true] exactly on the values of the JSON-Value
    domain of the spec's ordered rules ([json_domain]); when no cycle is
    reachable from the value it returns [false] on every other value. *)
Theorem isJSONValue_decides_domain h v :
  builtin_every h = true ->
  (json_domain h v <-> returns h v true) /\
  (acyclic h v -> ~ json_domain h v -> returns h v false).
Proof.
  intros Hb. split; [split|].
  - apply domain_returns_true. exact Hb.
  - intros [n Hn]. apply (returns_true_domain n h v Hb). apply Hn. lia.
  - intros Hac Hnd. destruct (proj1 (acyclic_returns h Hb) v Hac) as [[|] Hr]; [|exact Hr].
    exfalso. apply Hnd. destruct Hr as [n Hn]. apply (returns_true_domain n h v Hb). apply Hn. lia.
Qed.

(** C2 (evaluated at the failing input): the object literal
    [{__proto__: "x"}] decodes to an object with no own property at all:
    the assignment [obj["__proto__"] = "x"] reaches the [__proto__] setter
    of [Object.prototype], which ignores a non-object. *)
Theorem parseLiteral_proto_field_dropped :
  parseLiteral (ObjectValue [("__proto__", StringValue "x")]) realm
  = (Ret (VRef 12%nat), (realm ++ [plain_object])%list) /\
  o_props plain_object = [].
Proof. split; reflexivity. Qed.

(** C3: [serialize] and [parseValue] agree on every input, outcome and
    error alike. *)
Theorem serialize_eq_parseValue fuel h v :
  serialize fuel h v = parseValue fuel h v.
Proof. reflexivity. Qed.

(** C4: on a value the validator accepts, [serialize] and [parseValue]
    return that very value (the same location for an object or array);
    they read the heap and never write it. *)
Theorem serialize_identity fuel h v :
  isJSONValue fuel h v = Ret true ->
  serialize fuel h v = Ret v /\ parseValue fuel h v = Ret v.
Proof.
  apply converters_of_valid.
Qed.


(** C6 (amended): on a date-like value both converters return the outcome
    of [value.toISOString()] whatever the validator would say; for a Date
    with a valid time value [t] and the builtin method this is the
    ISO-8601 string of [t], a JSON value; for an invalid Date it is a
    [RangeError]. *)
Theorem serialize_date fuel h v :
  instanceof h v loc_DateProto = true ->
  serialize fuel h v = call_toISOString h v /\
  parseValue fuel h v = call_toISOString h v /\
  (forall l o t, v = VRef l -> lookup h l = Some o -> o_kind o = KDate (Some t) ->
     Z.abs t <= max_time -> builtin_toISOString h v ->
     serialize fuel h v = Ret (VStr (iso_string t)) /\
     isJSONValue (S fuel) h (VStr (iso_string t)) = Ret true) /\
  (forall l o, v = VRef l -> lookup h l = Some o -> o_kind o = KDate None ->
     builtin_toISOString h v ->
     serialize fuel h v = Throw (RangeError "Invalid time value")).
Proof.
  intros Hd. unfold serialize, parseValue. rewrite Hd.
  split; [reflexivity|]. split; [reflexivity|].
  split.
  - intros l o t -> Hl Hk Ht [Hg [f [Hf Hfk]]]. split; [|reflexivity].
    unfold call_toISOString. rewrite Hg, Hf, Hfk. unfold date_proto_toISOString.
    rewrite Hl, Hk. apply Z.leb_le in Ht. rewrite Ht. reflexivity.
  - intros l o -> Hl Hk [Hg [f [Hf Hfk]]].
    unfold call_toISOString. rewrite Hg, Hf, Hfk. unfold date_proto_toISOString.
    rewrite Hl, Hk. reflexivity.
Qed.

(** C7: a node of an unsupported kind (a variable or an enum value) is
    rejected with a [TypeError] naming its kind and the seven supported
    ones. *)
Theorem parseLiteral_unsupported ast h :
  supported_kind (kind ast) = false ->
  parseLiteral ast h = (Throw (TypeError (literal_message (kind ast))), h) /\
  literal_message (kind ast) =
  "JSON cannot represent value: " ++ kind ast ++ ".Only StringValue, IntValue, FloatValue, BooleanValue, NullValue, ObjectValue, and ListValue are supported".
Proof.
  intros H. destruct ast; try discriminate H; split; reflexivity.
Qed.

(** C8 (evaluated at the failing input): the object literal
    [{constructor: 1}] decodes to a plain object that the validator
    rejects, because [value.constructor] is then the number 1. *)
Theorem parseLiteral_constructor_field_rejected :
  let '(r, h') := parseLiteral (ObjectValue [("constructor", IntValue "1")]) realm in
  r = Ret (VRef 12%nat) /\
  lookup h' 12%nat = Some (mkObj (VRef loc_ObjectProto) KOrdinary
                         [("constructor", data_prop (VNum (parseInt10 "1")))]) /\
  forall fuel, isJSONValue (S fuel) h' (VRef 12%nat) = Ret false.
Proof.
  simpl. split; [reflexivity|]. split; [reflexivity|].
  intros fuel. reflexivity.
Qed.


(** C10 (amended): for an array the validator never reads the
    constructor: it hands the array to [value.every], which is the builtin
    over the elements unless the array or one of its prototypes in front
    of [Array.prototype] defines its own [every].  So an array that is not
    a date, regular-expression or error instance and inherits the builtin
    [every], a subclass instance included, is accepted when its elements
    are, and returned as it is. *)
Theorem isJSONValue_array_ignores_constructor fuel h l o es :
  lookup h l = Some o -> o_kind o = KArray es -> excluded_instance h (VRef l) = false ->
  isJSONValue (S fuel) h (VRef l) =
    match get_every h l with
    | EveryBuiltin => every (isJSONValue fuel h) es
    | EveryValue m => call_every h (VRef l) m
    end /\
  (get_every h l = EveryBuiltin -> every (isJSONValue fuel h) es = Ret true ->
   serialize (S fuel) h (VRef l) = Ret (VRef l) /\ parseValue (S fuel) h (VRef l) = Ret (VRef l)).
Proof.
  intros Hl Hk Hx.
  assert (Heq : isJSONValue (S fuel) h (VRef l) =
    match get_every h l with
    | EveryBuiltin => every (isJSONValue fuel h) es
    | EveryValue m => call_every h (VRef l) m
    end).
  { rewrite isJSONValue_ref, Hl. unfold is_callable. rewrite Hk, Hx. reflexivity. }
  split; [exact Heq|]. intros He Hall.
  apply converters_of_valid. rewrite Heq, He. exact Hall.
Qed.

Definition alloc_M (o : obj) : M loc := fun h => let '(l, h') := alloc h o in (Ret l, h').

Fixpoint parse_list (xs : list valueNode) : M (list value) :=
  match xs with
  | [] => mret []
  | x :: r => y <- parseLiteral x ;; ys <- parse_list r ;; mret (y :: ys)
  end.

Fixpoint set_fields (l : loc) (fs : list (string * valueNode)) : M value :=
  match fs with
  | [] => mret (VRef l)
  | (name, n) :: r =>
      v <- parseLiteral n ;;
      _ <- mlift (fun h => set_prop h l name v) tt ;;
      set_fields l r
  end.

Lemma parseLiteral_ListValue vs :
  parseLiteral (ListValue vs) =
  (l <- alloc_M (mkObj (VRef loc_ArrayProto) (KArray []) []) ;;
   es <- parse_list vs ;; _ <- set_elems l es ;; mret (VRef l)).
Proof.
  cbn [parseLiteral].
  match goal with |- mbind _ (fun _ => mbind (?F vs) _) = _ =>
    assert (E : forall xs, F xs = parse_list xs) end.
  { induction xs as [|x r IH]; [reflexivity|]. cbn. rewrite IH. reflexivity. }
  rewrite E. reflexivity.
Qed.

Lemma parseLiteral_ObjectValue fs h :
  parseLiteral (ObjectValue fs) h = (l <- alloc_M plain_object ;; set_fields l fs) h.
Proof.
  cbn [parseLiteral].
  match goal with |- mbind _ (fun l => ?F l fs) _ = _ =>
    assert (E : forall l xs, F l xs = set_fields l xs) end.
  { intros l. induction xs as [|[name n] r IH]; [reflexivity|]. cbn. rewrite IH. reflexivity. }
  unfold mbind, alloc_M, alloc. rewrite E. reflexivity.
Qed.


(** ** The decoder writes only to the objects it allocates *)

Lemma replace_nth_length {A} n (x : A) xs : length (replace_nth n x xs) = length xs.
Proof. revert n; induction xs as [|y r IH]; intros [|n]; simpl; auto. Qed.

Lemma replace_nth_ne {A} n (x : A) xs i :
  i <> n -> nth_error (replace_nth n x xs) i = nth_error xs i.
Proof.
  revert n i; induction xs as [|y r IH]; intros [|n] [|i] H; simpl; auto; try congruence.
  all: apply IH; lia.
Qed.

Lemma replace_nth_eq {A} n (x : A) xs :
  (n < length xs)%nat -> nth_error (replace_nth n x xs) n = Some x.
Proof.
  revert n; induction xs as [|y r IH]; intros [|n] H; simpl in *; try lia; auto.
  all: apply IH; lia.
Qed.

(** [h'] differs from [h] at most at location [l]. *)
Definition writes_only (h h' : heap) (l : loc) : Prop :=
  length h' = length h /\ forall i, i <> l -> nth_error h' i = nth_error h i.

Lemma update_writes_only h l o : writes_only h (update h l o) l.
Proof.
  split; [apply replace_nth_length|]. intros i Hi. apply replace_nth_ne. exact Hi.
Qed.

Lemma writes_only_refl h l : writes_only h h l.
Proof. split; reflexivity. Qed.

Lemma define_on_receiver_writes h r k v h' :
  define_on_receiver h r k v = Ret h' -> writes_only h h' r.
Proof.
  unfold define_on_receiver. destruct (lookup h r) as [o|];
    [|intros E; inversion E; apply writes_only_refl].
  destruct (own_prop o k) as [p|]; [destruct (p_writable p); [|discriminate]|];
    intros E; inversion E; apply update_writes_only.
Qed.

Lemma proto_setter_writes h r v h' : proto_setter h r v = Ret h' -> writes_only h h' r.
Proof.
  unfold proto_setter.
  destruct v; try (intros E; inversion E; apply writes_only_refl);
    (destruct (proto_chain_has _ _ _ _); [discriminate|]);
    (destruct (lookup h r); intros E; inversion E; [apply update_writes_only | apply writes_only_refl]).
Qed.

Lemma set_prop_writes h r k v h' : set_prop h r k v = Ret h' -> writes_only h h' r.
Proof.
  unfold set_prop. generalize (length h) as fuel, r at 1 as cur.
  intros fuel. induction fuel as [|f IH]; intros cur; simpl;
    [intros E; inversion E; apply writes_only_refl|].
  destruct (lookup h cur) as [o|]; [|intros E; inversion E; apply writes_only_refl].
  destruct (Nat.eqb cur loc_ObjectProto && String.eqb k "__proto__");
    [apply proto_setter_writes|].
  destruct (own_prop o k) as [p|];
    [destruct (p_writable p); [apply define_on_receiver_writes | discriminate]|].
  destruct (o_proto o); try apply define_on_receiver_writes. apply IH.
Qed.

(** A computation that leaves the locations below [n] alone and only grows
    the heap, whether it returns or throws. *)
Definition preserves_below {A} (n : nat) (m : M A) : Prop :=
  forall h, (n <= length h)%nat ->
  (length h <= length (snd (m h)))%nat /\
  forall i, (i < n)%nat -> nth_error (snd (m h)) i = nth_error h i.

Lemma mret_preserves {A} n (a : A) : preserves_below n (mret a).
Proof. intros h _. split; auto. Qed.

Lemma mthrow_preserves {A} n e : preserves_below n (@mthrow A e).
Proof. intros h _. split; auto. Qed.

Lemma mbind_preserves {A B} n (m : M A) (f : A -> M B) :
  preserves_below n m -> (forall a, preserves_below n (f a)) -> preserves_below n (mbind m f).
Proof.
  intros Hm Hf h Hn. unfold mbind. destruct (Hm h Hn) as [Hl Hi].
  destruct (m h) as [[a|e] h1]; simpl in *; [|split; auto].
  destruct (Hf a h1 ltac:(lia)) as [Hl2 Hi2]. split; [lia|].
  intros i Hlt. rewrite Hi2, Hi; auto.
Qed.

Lemma alloc_bind_preserves {B} n o (f : loc -> M B) :
  (forall l, (n <= l)%nat -> preserves_below n (f l)) ->
  preserves_below n (mbind (alloc_M o) f).
Proof.
  intros Hf h Hn. unfold mbind, alloc_M, alloc.
  destruct (Hf (length h) Hn (h ++ [o])%list) as [Hl Hi]; [rewrite length_app; lia|].
  rewrite length_app in Hl. split; [lia|].
  intros i Hlt. rewrite Hi by exact Hlt. apply nth_error_app1. lia.
Qed.

Lemma set_elems_preserves n l es : (n <= l)%nat -> preserves_below n (set_elems l es).
Proof.
  intros Hnl h Hn. unfold set_elems, update. destruct (lookup h l); simpl; [|split; auto].
  rewrite replace_nth_length. split; [lia|]. intros i Hi. apply replace_nth_ne. lia.
Qed.

Lemma set_prop_preserves n l k v :
  (n <= l)%nat -> preserves_below n (mlift (fun h => set_prop h l k v) tt).
Proof.
  intros Hnl h Hn. unfold mlift.
  destruct (set_prop h l k v) as [h'|e] eqn:E; simpl; [|split; auto].
  destruct (set_prop_writes h l k v h' E) as [Hl Hi]. split; [lia|].
  intros i Hlt. apply Hi. lia.
Qed.

Lemma parseLiteral_preserves ast : forall n, preserves_below n (parseLiteral ast).
Proof.
  induction ast as [m|s|s|s|b| |s|vs IH|fs IH] using valueNode_ind'; intros n;
    try apply mret_preserves; try apply mthrow_preserves.
  - rewrite parseLiteral_ListValue. apply alloc_bind_preserves. intros l Hl.
    apply mbind_preserves.
    + induction IH as [|x r Hx _ IHr]; [apply mret_preserves|].
      apply mbind_preserves; [apply Hx|]. intros y.
      apply mbind_preserves; [exact IHr|]. intros ys. apply mret_preserves.
    + intros es. apply mbind_preserves; [apply set_elems_preserves; exact Hl|].
      intros _. apply mret_preserves.
  - intros h Hn. rewrite parseLiteral_ObjectValue. revert h Hn.
    apply alloc_bind_preserves. intros l Hl.
    induction IH as [|[name m] r Hx _ IHr]; [apply mret_preserves|].
    apply mbind_preserves; [apply Hx|]. intros v.
    apply mbind_preserves; [apply set_prop_preserves; exact Hl|]. intros _. exact IHr.
Qed.

Lemma parse_list_preserves vs n : preserves_below n (parse_list vs).
Proof.
  induction vs as [|x r IH]; [apply mret_preserves|].
  apply mbind_preserves; [apply parseLiteral_preserves|]. intros y.
  apply mbind_preserves; [exact IH|]. intros ys. apply mret_preserves.
Qed.

(** ** Unsupported nodes anywhere in a literal *)

Fixpoint has_unsupported (ast : valueNode) : bool :=
  match ast with
  | VariableNode _ | EnumValue _ => true
  | ListValue vs => existsb has_unsupported vs
  | ObjectValue fs => existsb (fun f => has_unsupported (snd f)) fs
  | _ => false
  end.

Lemma parseLiteral_throws_on_unsupported ast :
  has_unsupported ast = true -> forall h, exists e, fst (parseLiteral ast h) = Throw e.
Proof.
  induction ast as [m|s|s|s|b| |s|vs IH|fs IH] using valueNode_ind'; intros H h;
    try discriminate H; try (eexists; reflexivity).
  - assert (Hl : forall h, exists e, fst (parse_list vs h) = Throw e).
    { clear h. simpl in H. induction IH as [|x r Hx _ IHr]; [discriminate|]. intros h.
      simpl in H. cbn [parse_list]. unfold mbind at 1.
      destruct (parseLiteral x h) as [[y|e] h1] eqn:E; [|eexists; reflexivity].
      destruct (has_unsupported x) eqn:Hux.
      - destruct (Hx ltac:(assumption) h) as [e He]. simpl in He. rewrite E in He. discriminate He.
      - destruct (IHr H h1) as [e He]. unfold mbind.
        destruct (parse_list r h1) as [[ys|e'] h2]; simpl in He; [discriminate|].
        eexists; reflexivity. }
    rewrite parseLiteral_ListValue. unfold mbind at 1, alloc_M, alloc.
    destruct (Hl (h ++ [mkObj (VRef loc_ArrayProto) (KArray []) []])%list) as [e He].
    unfold mbind. destruct (parse_list vs _) as [[es|e'] h2]; simpl in He; [discriminate|].
    eexists; reflexivity.
  - rewrite parseLiteral_ObjectValue. unfold mbind at 1, alloc_M, alloc.
    generalize (h ++ [plain_object])%list. generalize (length h). clear h.
    simpl in H. induction IH as [|[name m] r Hx _ IHr]; [discriminate|]. intros l h.
    simpl in H. cbn [set_fields]. unfold mbind at 1.
    destruct (parseLiteral m h) as [[y|e] h1] eqn:E; [|eexists; reflexivity].
    destruct (has_unsupported m) eqn:Hum.
    + destruct (Hx ltac:(assumption) h) as [e He]. simpl in He. rewrite E in He. discriminate He.
    + unfold mbind, mlift. destruct (set_prop h1 l name y); [|eexists; reflexivity].
      apply IHr. exact H.
Qed.


(** ** What the decoder builds *)

(** The builtins are at their locations. *)
Definition realm_prefix (h : heap) : Prop :=
  (12 <= length h)%nat /\ forall i, (i < 12)%nat -> nth_error h i = nth_error realm i.

(** A literal without variables or enum values, none of whose object
    fields is named [__proto__] or [constructor]. *)
Fixpoint plain_literal (ast : valueNode) : bool :=
  match ast with
  | VariableNode _ | EnumValue _ => false
  | ListValue vs => forallb plain_literal vs
  | ObjectValue fs =>
      forallb (fun f => negb (String.eqb (fst f) "__proto__")
                        && negb (String.eqb (fst f) "constructor")
                        && plain_literal (snd f)) fs
  | _ => true
  end.

(** The values the decoder produces in [h], all of whose objects were
    allocated in [lo..hi-1]: primitives, arrays of [Array.prototype] and
    plain objects of [Object.prototype] with writable enumerable data
    properties, none named [constructor]. *)
Inductive decoded (h : heap) (lo hi : nat) : value -> Prop :=
| DC_null : decoded h lo hi VNull
| DC_str s : decoded h lo hi (VStr s)
| DC_num n : decoded h lo hi (VNum n)
| DC_bool b : decoded h lo hi (VBool b)
| DC_array l es :
    (lo <= l < hi)%nat ->
    lookup h l = Some (mkObj (VRef loc_ArrayProto) (KArray es) []) ->
    decoded_all h lo hi es -> decoded h lo hi (VRef l)
| DC_object l ps :
    (lo <= l < hi)%nat ->
    lookup h l = Some (mkObj (VRef loc_ObjectProto) KOrdinary ps) ->
    ~ In "constructor" (map fst ps) ->
    decoded_props h lo hi ps -> decoded h lo hi (VRef l)
with decoded_all (h : heap) (lo hi : nat) : list value -> Prop :=
| DA_nil : decoded_all h lo hi []
| DA_cons v vs : decoded h lo hi v -> decoded_all h lo hi vs -> decoded_all h lo hi (v :: vs)
with decoded_props (h : heap) (lo hi : nat) : list (string * prop) -> Prop :=
| DP_nil : decoded_props h lo hi []
| DP_cons k v ps :
    decoded h lo hi v -> decoded_props h lo hi ps ->
    decoded_props h lo hi ((k, data_prop v) :: ps).

Scheme decoded_mut := Induction for decoded Sort Prop
  with decoded_all_mut := Induction for decoded_all Sort Prop
  with decoded_props_mut := Induction for decoded_props Sort Prop.
Combined Scheme decoded_combined from decoded_mut, decoded_all_mut, decoded_props_mut.

Lemma decoded_frame h h' lo hi lo' hi' :
  (lo' <= lo)%nat -> (hi <= hi')%nat ->
  (forall i, (lo <= i < hi)%nat -> nth_error h' i = nth_error h i) ->
  (forall v, decoded h lo hi v -> decoded h' lo' hi' v) /\
  (forall es, decoded_all h lo hi es -> decoded_all h' lo' hi' es) /\
  (forall ps, decoded_props h lo hi ps -> decoded_props h' lo' hi' ps).
Proof.
  intros Hlo Hhi Hag.
  apply (decoded_combined h lo hi (fun v _ => decoded h' lo' hi' v)
           (fun es _ => decoded_all h' lo' hi' es) (fun ps _ => decoded_props h' lo' hi' ps));
    try (intros; constructor; assumption).
  - intros l es Hb Hl _ IH. apply (DC_array h' lo' hi' l es); [lia| |exact IH].
    unfold lookup in *. rewrite Hag by lia. exact Hl.
  - intros l ps Hb Hl Hc _ IH. apply (DC_object h' lo' hi' l ps); [lia| |exact Hc|exact IH].
    unfold lookup in *. rewrite Hag by lia. exact Hl.
Qed.

Lemma realm_nth h i : realm_prefix h -> (i < 12)%nat -> nth_error h i = nth_error realm i.
Proof. intros [_ H] Hi. apply H. exact Hi. Qed.

Lemma chain_ObjectProto h fuel t :
  realm_prefix h -> (2 <= fuel)%nat ->
  proto_chain_has fuel h (VRef loc_ObjectProto) t = Nat.eqb 0 t.
Proof.
  intros Hr Hf. destruct fuel as [|[|f]]; try lia. cbn [proto_chain_has].
  unfold lookup, loc_ObjectProto, loc_ArrayProto in *; rewrite (realm_nth h 0) by (exact Hr || lia). simpl. apply orb_false_r.
Qed.

Lemma chain_ArrayProto h fuel t :
  realm_prefix h -> (3 <= fuel)%nat ->
  proto_chain_has fuel h (VRef loc_ArrayProto) t = Nat.eqb 3 t || Nat.eqb 0 t.
Proof.
  intros Hr Hf. destruct fuel as [|f]; try lia. cbn [proto_chain_has].
  unfold lookup, loc_ObjectProto, loc_ArrayProto in *; rewrite (realm_nth h 3) by (exact Hr || lia). simpl.
  rewrite chain_ObjectProto by (exact Hr || lia). reflexivity.
Qed.

Lemma insert_by_index_In n kp xs y :
  In y (insert_by_index n kp xs) -> y = (n, kp) \/ In y xs.
Proof.
  induction xs as [|[m kp'] r IH]; simpl; [intuition|].
  destruct (n <? m); simpl; [intuition|]. intros [E|H]; [auto|].
  destruct (IH H); auto.
Qed.

Lemma index_keys_In ps kp : In kp (map snd (index_keys ps)) -> In kp ps.
Proof.
  induction ps as [|kp0 r IH]; simpl; [auto|].
  destruct (array_index (fst kp0)); [|intros H; right; apply IH; exact H].
  intros H. apply in_map_iff in H as [[m kp'] [E H]]. simpl in E. subst kp'.
  apply insert_by_index_In in H as [E|H]; [inversion E; left; reflexivity|].
  right. apply IH. apply in_map_iff. exists (m, kp). auto.
Qed.

Lemma object_values_In o v :
  In v (object_values o) -> exists kp, In kp (o_props o) /\ v = p_value (snd kp).
Proof.
  unfold object_values, own_property_keys. intros H.
  apply in_map_iff in H as [kp [E H]]. apply filter_In in H as [H _].
  exists kp. split; [|auto].
  apply in_app_or in H as [H|H]; [apply index_keys_In; exact H|].
  apply filter_In in H as [H _]. exact H.
Qed.

Lemma decoded_json h lo hi :
  realm_prefix h ->
  (forall v, decoded h lo hi v -> json_domain_std h v) /\
  (forall es, decoded_all h lo hi es -> json_all_std h es) /\
  (forall ps, decoded_props h lo hi ps ->
     forall kp, In kp ps -> json_domain_std h (p_value (snd kp))).
Proof.
  intros Hr. pose proof (proj1 Hr) as Hlen.
  apply (decoded_combined h lo hi (fun v _ => json_domain_std h v) (fun es _ => json_all_std h es)
           (fun ps _ => forall kp, In kp ps -> json_domain_std h (p_value (snd kp))));
    try (intros; constructor; assumption).
  - intros l es _ Hl _ IH. eapply JS_array; [exact Hl|reflexivity| | |exact IH].
    + unfold excluded_instance, instanceof. rewrite Hl. simpl o_proto.
      rewrite !chain_ArrayProto by (exact Hr || lia). reflexivity.
    + unfold get_every. destruct (length h) as [|[|f]] eqn:E; try lia. cbn [every_walk].
      destruct (Nat.eqb l loc_ArrayProto); [reflexivity|]. rewrite Hl. reflexivity.
  - intros l ps _ Hl Hc _ IH. eapply JS_object; [exact Hl|reflexivity|reflexivity| | |].
    + unfold excluded_instance, instanceof. rewrite Hl. simpl o_proto.
      rewrite !chain_ObjectProto by (exact Hr || lia). reflexivity.
    + unfold constructor_ok, get.
      destruct (length h) as [|[|f]] eqn:E; try lia. cbn [get_walk].
      unfold lookup in *. rewrite Hl. unfold own_prop. simpl o_props.
      assert (Hn : assoc "constructor" ps = None).
      { clear - Hc. induction ps as [|[k p] r IHr]; [reflexivity|]. cbn [assoc map fst In] in *.
        destruct (String.eqb "constructor" k) eqn:Ek.
        - apply String.eqb_eq in Ek. subst k. exfalso. apply Hc. left. reflexivity.
        - apply IHr. intros H. apply Hc. right. exact H. }
      rewrite Hn. simpl o_proto. cbn [get_walk].
      unfold lookup, loc_ObjectProto, loc_ArrayProto in *; rewrite (realm_nth h 0) by (exact Hr || lia). reflexivity.
    + apply json_all_std_of_Forall. apply Forall_forall. intros v Hv.
      apply object_values_In in Hv as [kp [Hin ->]]. apply IH. exact Hin.
  - intros kp Hin. destruct Hin.
  - intros k v ps _ IHv _ IHps kp [<-|Hin]; [exact IHv|]. apply IHps. exact Hin.
Qed.

Lemma realm_prefix_grow h h' :
  realm_prefix h -> (length h <= length h')%nat ->
  (forall i, (i < length h)%nat -> nth_error h' i = nth_error h i) -> realm_prefix h'.
Proof.
  intros [Hl Hr] Hle Hag. split; [lia|]. intros i Hi. rewrite Hag by lia. apply Hr. exact Hi.
Qed.

Lemma realm_prefix_writes h h' l :
  realm_prefix h -> (12 <= l)%nat -> writes_only h h' l -> realm_prefix h'.
Proof.
  intros [Hl Hr] Hl12 [Hlen Hag]. split; [lia|]. intros i Hi. rewrite Hag by lia. auto.
Qed.

(** An assignment [obj[k] = v] to a plain object of [Object.prototype],
    for a key other than [__proto__] and [constructor], defines or updates
    the receiver's own property. *)
Lemma set_prop_plain h l ps k v :
  realm_prefix h -> (12 <= l)%nat ->
  lookup h l = Some (mkObj (VRef loc_ObjectProto) KOrdinary ps) ->
  k <> "__proto__" -> k <> "constructor" ->
  (forall p, assoc k ps = Some p -> p_writable p = true) ->
  set_prop h l k v = define_on_receiver h l k v.
Proof.
  intros Hr Hl12 Hl Hp Hc Hw. unfold set_prop.
  destruct (length h) as [|[|f]] eqn:E; [pose proof (proj1 Hr); lia|pose proof (proj1 Hr); lia|].
  cbn [set_walk]. rewrite Hl.
  replace (Nat.eqb l loc_ObjectProto) with false by (symmetry; apply Nat.eqb_neq; unfold loc_ObjectProto; lia).
  simpl andb. cbv iota. unfold own_prop at 1. simpl o_props.
  destruct (assoc k ps) as [p|] eqn:Ea; [rewrite (Hw p eq_refl); reflexivity|].
  simpl o_proto. cbn [set_walk]. unfold lookup, loc_ObjectProto, loc_ArrayProto in *; rewrite (realm_nth h 0) by (exact Hr || lia).
  cbn [nth_error realm]. 
  replace (String.eqb k "__proto__") with false by (symmetry; apply String.eqb_neq; exact Hp).
  replace (Nat.eqb loc_ObjectProto loc_ObjectProto) with true by reflexivity.
  cbn [andb]. unfold own_prop. cbn [o_props assoc fst snd].
  replace (String.eqb k "constructor") with false by (symmetry; apply String.eqb_neq; exact Hc).
  reflexivity.
Qed.


(** The own keys after [obj[k] = v]: [k] is added at the end unless it
    is already there. *)
Definition add_key (ks : list string) (k : string) : list string :=
  if existsb (String.eqb k) ks then ks else (ks ++ [k])%list.

Lemma assoc_existsb k ps :
  existsb (String.eqb k) (map fst ps) = match assoc k ps with Some _ => true | None => false end.
Proof.
  induction ps as [|[k' p] r IH]; [reflexivity|]. cbn [map fst existsb assoc].
  destruct (String.eqb k k'); [reflexivity|exact IH].
Qed.

Lemma decoded_props_assoc h lo hi ps k p :
  decoded_props h lo hi ps -> assoc k ps = Some p -> p = data_prop (p_value p).
Proof.
  induction 1 as [|k' v ps' _ _ IH]; simpl; [discriminate|].
  destruct (String.eqb k k'); [intros E; inversion E; reflexivity | exact IH].
Qed.

(** Defining or updating the own property [k] of an object whose
    properties the decoder built. *)
Lemma define_on_decoded h l P K ps k v h0 lo0 hi0 :
  decoded_props h0 lo0 hi0 ps ->
  nth_error h l = Some (mkObj P K ps) ->
  exists ps',
    define_on_receiver h l k v = Ret (update h l (mkObj P K ps')) /\
    (forall x, In x (map fst ps') -> In x (map fst ps) \/ x = k) /\
    map fst ps' = add_key (map fst ps) k /\
    (forall h' lo hi, decoded_props h' lo hi ps -> decoded h' lo hi v -> decoded_props h' lo hi ps').
Proof.
  intros D0 Hl. unfold define_on_receiver, lookup. rewrite Hl. unfold own_prop. cbn [o_props o_proto o_kind].
  destruct (assoc k ps) as [p|] eqn:Ea.
  - pose proof (decoded_props_assoc h0 lo0 hi0 ps k p D0 Ea) as Ep. rewrite Ep. cbn [p_writable p_enumerable data_prop].
    eexists. split; [reflexivity|]. split; [|split].
    + intros x Hx. left. clear - Hx. induction ps as [|[k' q] r IH]; [exact Hx|].
      cbn [map fst] in *. destruct (String.eqb k' k) eqn:Ek.
      * apply String.eqb_eq in Ek. subst k'. destruct Hx as [<-|Hx]; [left; reflexivity|right; auto].
      * destruct Hx as [<-|Hx]; [left; reflexivity|right; auto].
    + unfold add_key. rewrite assoc_existsb, Ea. clear.
      induction ps as [|[k' q] r IH]; [reflexivity|]. cbn [map fst].
      destruct (String.eqb k' k) eqn:Ek; cbn [fst]; rewrite IH; [|reflexivity].
      apply String.eqb_eq in Ek. subst k'. reflexivity.
    + intros h' lo hi D Dv. clear - D Dv. induction D as [|k' w r Dw _ IH]; [constructor|].
      cbn [map fst]. destruct (String.eqb k' k); constructor; assumption.
  - eexists. split; [reflexivity|]. split; [|split].
    + intros x Hx. rewrite map_app in Hx. apply in_app_or in Hx as [Hx|[<-|[]]]; auto.
    + unfold add_key. rewrite assoc_existsb, Ea, map_app. reflexivity.
    + intros h' lo hi D Dv. clear - D Dv. induction D as [|k' w r Dw _ IH].
      * constructor; [exact Dv|constructor].
      * simpl. constructor; assumption.
Qed.

Definition decodes (ast : valueNode) : Prop :=
  forall h, realm_prefix h ->
  exists v h', parseLiteral ast h = (Ret v, h') /\ decoded h' (length h) (length h') v.

Lemma set_fields_decodes fs :
  Forall (fun f => fst f <> "__proto__" /\ fst f <> "constructor" /\ decodes (snd f)) fs ->
  forall l, (12 <= l)%nat -> forall hc ps, realm_prefix hc -> (S l <= length hc)%nat ->
  nth_error hc l = Some (mkObj (VRef loc_ObjectProto) KOrdinary ps) ->
  ~ In "constructor" (map fst ps) -> decoded_props hc (S l) (length hc) ps ->
  exists hf ps', set_fields l fs hc = (Ret (VRef l), hf) /\ (S l <= length hf)%nat /\
    nth_error hf l = Some (mkObj (VRef loc_ObjectProto) KOrdinary ps') /\
    ~ In "constructor" (map fst ps') /\ decoded_props hf (S l) (length hf) ps' /\
    map fst ps' = fold_left add_key (map fst fs) (map fst ps).
Proof.
  induction 1 as [|[name n] r [Hpp [Hpc Hx]] _ IHr];
    intros l Hl12 hc ps Hrc Hlen Hlook Hnc Hd.
  - exists hc, ps. split; [reflexivity|auto].
  - cbn [fst snd] in Hpp, Hpc, Hx.
    destruct (Hx hc Hrc) as [v [h1 [E1 D1]]].
    destruct (parseLiteral_preserves n (length hc) hc (le_n _)) as [Len1 Ag1].
    rewrite E1 in Len1, Ag1. cbn [snd] in Len1, Ag1.
    assert (Hr1 : realm_prefix h1) by (eapply realm_prefix_grow; eauto).
    assert (Hlook1 : nth_error h1 l = Some (mkObj (VRef loc_ObjectProto) KOrdinary ps))
      by (rewrite Ag1 by lia; exact Hlook).
    assert (Hd1 : decoded_props h1 (S l) (length h1) ps).
    { refine (proj2 (proj2 (decoded_frame hc h1 (S l) (length hc) (S l) (length h1)
                              (le_n _) Len1 _)) ps Hd).
      intros i Hi. apply Ag1. lia. }
    assert (Hv1 : decoded h1 (S l) (length h1) v).
    { refine (proj1 (decoded_frame h1 h1 (length hc) (length h1) (S l) (length h1)
                       Hlen (le_n _) _) v D1). intros i _. reflexivity. }
    destruct (define_on_decoded h1 l (VRef loc_ObjectProto) KOrdinary ps name v h1 (S l) (length h1)
                Hd1 Hlook1) as [ps' [Hdef [Hkeys [Hks Htr]]]].
    assert (Hset : set_prop h1 l name v = define_on_receiver h1 l name v).
    { apply (set_prop_plain h1 l ps); auto.
      intros p Ea. rewrite (decoded_props_assoc h1 (S l) (length h1) ps name p Hd1 Ea). reflexivity. }
    set (h2 := update h1 l (mkObj (VRef loc_ObjectProto) KOrdinary ps')).
    pose proof (update_writes_only h1 l (mkObj (VRef loc_ObjectProto) KOrdinary ps')) as Hw.
    fold h2 in Hw. destruct Hw as [Len2 Ag2].
    assert (Hd2 : decoded_props h2 (S l) (length h2) ps').
    { refine (proj2 (proj2 (decoded_frame h1 h2 (S l) (length h1) (S l) (length h2)
                              (le_n _) (Nat.eq_le_incl _ _ (eq_sym Len2)) _)) ps' (Htr _ _ _ Hd1 Hv1)).
      intros i Hi. apply Ag2. lia. }
    assert (Hnc2 : ~ In "constructor" (map fst ps')).
    { intros Hin. destruct (Hkeys _ Hin) as [H|H]; [exact (Hnc H)|exact (Hpc (eq_sym H))]. }
    assert (Hr2 : realm_prefix h2).
    { eapply realm_prefix_writes; [exact Hr1|exact Hl12|]. apply update_writes_only. }
    assert (Hlook2 : nth_error h2 l = Some (mkObj (VRef loc_ObjectProto) KOrdinary ps')).
    { apply replace_nth_eq. lia. }
    destruct (IHr l Hl12 h2 ps' Hr2 ltac:(lia) Hlook2 Hnc2 Hd2) as [hf [ps'' [Ef [R1 [R2 [R3 [R4 R5]]]]]]].
    exists hf, ps''. split; [|repeat split; auto; rewrite R5, Hks; reflexivity].
    cbn [set_fields]. unfold mbind at 1. rewrite E1. cbv beta iota.
    unfold mbind, mlift. rewrite Hset, Hdef. cbv beta iota. exact Ef.
Qed.

Lemma parseLiteral_decodes ast : plain_literal ast = true -> decodes ast.
Proof.
  induction ast as [m|s|s|s|b| |s|vs IH|fs IH] using valueNode_ind'; intros Hp h Hr;
    try discriminate Hp;
    try (eexists; exists h; split; [reflexivity|constructor]).
  - assert (Hl : forall h, realm_prefix h ->
              exists es h', parse_list vs h = (Ret es, h') /\
                            decoded_all h' (length h) (length h') es).
    { clear h Hr. simpl in Hp. induction IH as [|x r Hx _ IHr]; intros h Hr.
      - exists [], h. split; [reflexivity|constructor].
      - cbn [forallb] in Hp. apply andb_prop in Hp as [Hpx Hpr].
        destruct (Hx Hpx h Hr) as [v [h1 [E1 D1]]].
        destruct (parseLiteral_preserves x (length h) h (le_n _)) as [Len1 Ag1].
        rewrite E1 in Len1, Ag1. cbn [snd] in Len1, Ag1.
        assert (Hr1 : realm_prefix h1) by (eapply realm_prefix_grow; eauto).
        destruct (IHr Hpr h1 Hr1) as [es [h2 [E2 D2]]].
        destruct (parse_list_preserves r (length h1) h1 (le_n _)) as [Len2 Ag2].
        rewrite E2 in Len2, Ag2. cbn [snd] in Len2, Ag2.
        exists (v :: es), h2. split.
        + cbn [parse_list]. unfold mbind. rewrite E1. cbv beta iota. rewrite E2. reflexivity.
        + constructor.
          * refine (proj1 (decoded_frame h1 h2 (length h) (length h1) (length h) (length h2)
                             (le_n _) Len2 _) v D1).
            intros i Hi. apply Ag2. lia.
          * refine (proj1 (proj2 (decoded_frame h2 h2 (length h1) (length h2) (length h) (length h2)
                                    Len1 (le_n _) _)) es D2).
            intros i _. reflexivity. }
    destruct (Hl (h ++ [mkObj (VRef loc_ArrayProto) (KArray []) []])%list) as [es [h1 [E1 D1]]].
    { eapply realm_prefix_grow; [exact Hr| rewrite length_app; lia|].
      intros i Hi. apply nth_error_app1. exact Hi. }
    destruct (parse_list_preserves vs (length (h ++ [mkObj (VRef loc_ArrayProto) (KArray []) []]))
                (h ++ [mkObj (VRef loc_ArrayProto) (KArray []) []])%list (le_n _)) as [Len1 Ag1].
    rewrite E1 in Len1, Ag1. cbn [snd] in Len1, Ag1. rewrite length_app in Len1, Ag1, D1.
    cbn [length] in Len1, Ag1, D1. rewrite Nat.add_1_r in Len1, Ag1, D1.
    assert (Hlook : nth_error h1 (length h) = Some (mkObj (VRef loc_ArrayProto) (KArray []) [])).
    { rewrite Ag1 by lia. rewrite nth_error_app2, Nat.sub_diag by lia. reflexivity. }
    pose proof (update_writes_only h1 (length h) (mkObj (VRef loc_ArrayProto) (KArray es) []))
      as [Len2 Ag2].
    exists (VRef (length h)), (update h1 (length h) (mkObj (VRef loc_ArrayProto) (KArray es) [])).
    split.
    + rewrite parseLiteral_ListValue. unfold mbind, alloc_M, alloc. cbv beta iota.
      rewrite E1. cbv beta iota. unfold set_elems, lookup. rewrite Hlook. reflexivity.
    + apply (DC_array _ _ _ _ es); [rewrite Len2; lia| |].
      * apply replace_nth_eq. lia.
      * refine (proj1 (proj2 (decoded_frame h1 _ (S (length h)) (length h1) (length h) _
                                (le_S _ _ (le_n _)) (Nat.eq_le_incl _ _ (eq_sym Len2)) _)) es D1).
        intros i Hi. apply Ag2. lia.
  - assert (Hall : Forall (fun f => fst f <> "__proto__" /\ fst f <> "constructor" /\
                                     decodes (snd f)) fs).
    { simpl in Hp. clear - IH Hp. induction IH as [|[name n] r Hx _ IHr]; [constructor|].
      cbn [forallb fst snd] in Hp, Hx. apply andb_prop in Hp as [Hp1 Hpr].
      apply andb_prop in Hp1 as [Hp1 Hpn]. apply andb_prop in Hp1 as [Hpp Hpc].
      apply negb_true_iff, String.eqb_neq in Hpp, Hpc.
      constructor; [|apply IHr; exact Hpr]. cbn [fst snd]. auto. }
    assert (Hr0 : realm_prefix (h ++ [plain_object])%list).
    { eapply realm_prefix_grow; [exact Hr| rewrite length_app; lia|].
      intros i Hi. apply nth_error_app1. exact Hi. }
    assert (Hlen0 : (S (length h) <= length (h ++ [plain_object]))%nat).
    { rewrite length_app. simpl. lia. }
    assert (Hlook0 : nth_error (h ++ [plain_object])%list (length h) =
                     Some (mkObj (VRef loc_ObjectProto) KOrdinary [])).
    { rewrite nth_error_app2, Nat.sub_diag by lia. reflexivity. }
    destruct (set_fields_decodes fs Hall (length h) (proj1 Hr) _ [] Hr0 Hlen0 Hlook0
                (fun H => H) (DP_nil _ _ _)) as [hf [ps [Ef [Lf [Hlf [Hnc [Hdf _]]]]]]].
    exists (VRef (length h)), hf. split.
    + rewrite parseLiteral_ObjectValue. unfold mbind, alloc_M, alloc. cbv beta iota. exact Ef.
    + apply (DC_object _ _ _ _ ps); [lia|exact Hlf|exact Hnc|].
      refine (proj2 (proj2 (decoded_frame hf hf (S (length h)) (length hf) (length h) (length hf)
                              (le_S _ _ (le_n _)) (le_n _) _)) ps Hdf).
      intros i _. reflexivity.
Qed.


(** ** Further properties of the validator, the converters and the decoder *)

(** X1: a literal without variables, enum values or fields named
    [__proto__] or [constructor] decodes, in a heap holding the builtins,
    to a primitive or a freshly allocated object that lies in the
    JSON-Value domain; the validator accepts it, and [serialize] and
    [parseValue] return it unchanged given a large enough stack. *)
Theorem parseLiteral_plain_accepted ast h :
  plain_literal ast = true -> realm_prefix h ->
  exists v h', parseLiteral ast h = (Ret v, h') /\
    (forall l, v = VRef l -> (length h <= l)%nat) /\
    json_domain h' v /\ returns h' v true /\
    exists n, forall fuel, (n <= fuel)%nat ->
      serialize fuel h' v = Ret v /\ parseValue fuel h' v = Ret v.
Proof.
  intros Hp Hr. destruct (parseLiteral_decodes ast Hp h Hr) as [v [h' [E D]]].
  destruct (parseLiteral_preserves ast (length h) h (le_n _)) as [Len Ag].
  rewrite E in Len, Ag. cbn [snd] in Len, Ag.
  assert (Hr' : realm_prefix h') by (eapply realm_prefix_grow; eauto).
  assert (Js : json_domain_std h' v) by exact (proj1 (decoded_json h' _ _ Hr') v D).
  assert (J : json_domain h' v) by exact (proj1 (std_json h') v Js).
  pose proof (proj1 (std_domain_returns_true h') v Js) as Hret.
  exists v, h'. split; [exact E|]. split.
  { intros l ->. inversion D; subst;
      match goal with Hb : (_ <= _ < _)%nat |- _ => destruct Hb; lia end. }
  split; [exact J|]. split; [exact Hret|].
  destruct Hret as [n Hn]. exists n. intros fuel Hle. apply converters_of_valid. apply Hn. exact Hle.
Qed.

(** X2: the decoder never modifies an object that existed before it ran,
    whether it returns or throws: the heap only grows and every old
    location keeps its object, so in particular a [__proto__] field cannot
    alter [Object.prototype]. *)
Theorem parseLiteral_keeps_existing_objects ast h :
  (length h <= length (snd (parseLiteral ast h)))%nat /\
  forall l, (l < length h)%nat -> lookup (snd (parseLiteral ast h)) l = lookup h l.
Proof. exact (parseLiteral_preserves ast (length h) h (le_n _)). Qed.

(** X3: a variable or enum value anywhere inside a list or object literal
    makes the whole decoding throw a [TypeError]; no partial value is
    returned. *)
Theorem parseLiteral_nested_unsupported ast h :
  has_unsupported ast = true -> exists msg, fst (parseLiteral ast h) = Throw (TypeError msg).
Proof.
  intros H. destruct (parseLiteral_throws_on_unsupported ast H h) as [e He].
  pose proof (parseLiteral_no_range ast h) as Hn. rewrite He in Hn.
  destruct e as [msg|msg]; [exists msg; exact He|destruct Hn].
Qed.

(** X4: a function, an object that is a date, regular-expression or error
    instance, and a non-array object whose [constructor] is neither
    [Object] nor [undefined] (a class instance) are rejected at any stack
    depth, without their contents being looked at. *)
Theorem isJSONValue_rejects_non_plain fuel h l o :
  lookup h l = Some o ->
  is_callable o = true \/ excluded_instance h (VRef l) = true \/
  (is_array_kind (o_kind o) = false /\ constructor_ok h (VRef l) = false) ->
  isJSONValue (S fuel) h (VRef l) = Ret false.
Proof.
  intros Hl Hcase. rewrite isJSONValue_ref, Hl.
  destruct (is_callable o) eqn:Hc; [reflexivity|].
  destruct (excluded_instance h (VRef l)) eqn:Hx; [reflexivity|].
  destruct Hcase as [H|[H|[Ha Hok]]]; try discriminate H.
  rewrite Hok. destruct (o_kind o); try discriminate Ha; reflexivity.
Qed.

(** X5: an ordinary object with a null prototype and no own [constructor]
    ([Object.create(null)]) has [constructor] [undefined]: the validator
    checks its enumerable values and nothing else. *)
Theorem isJSONValue_null_prototype fuel h l o :
  lookup h l = Some o -> o_proto o = VNull -> o_kind o = KOrdinary ->
  own_prop o "constructor" = None ->
  isJSONValue (S fuel) h (VRef l) = every (isJSONValue fuel h) (object_values o).
Proof.
  intros Hl Hp Hk Hc. rewrite isJSONValue_ref, Hl. unfold is_callable. rewrite Hk.
  assert (Hlen : (l < length h)%nat) by (apply nth_error_Some; unfold lookup in Hl; rewrite Hl; discriminate).
  replace (excluded_instance h (VRef l)) with false.
  2:{ unfold excluded_instance, instanceof. rewrite Hl, Hp.
      destruct (length h); reflexivity. }
  replace (constructor_ok h (VRef l)) with true; [reflexivity|].
  unfold constructor_ok, get. destruct (length h) as [|f]; [lia|].
  cbn [get_walk]. rewrite Hl, Hc, Hp. reflexivity.
Qed.

(** X6: on a value that is not date-like, whatever [serialize] or
    [parseValue] returns is the input itself, which the validator has
    accepted. *)
Theorem converters_return_only_validated fuel h v r :
  instanceof h v loc_DateProto = false ->
  (serialize fuel h v = Ret r \/ parseValue fuel h v = Ret r) ->
  r = v /\ isJSONValue fuel h v = Ret true.
Proof.
  intros Hd Hr. unfold serialize, parseValue in Hr. rewrite Hd in Hr.
  destruct (isJSONValue fuel h v) as [[|]|e].
  - destruct Hr as [E|E]; inversion E; auto.
  - destruct (js_String h v); destruct Hr as [E|E]; discriminate E.
  - destruct Hr as [E|E]; discriminate E.
Qed.

(** X7: an array that inherits the builtin [every] is rejected as soon as
    one of its elements is, whatever the elements after it are (even ones
    on which the validator would overflow the stack): the builtin [every]
    stops at the first rejected element. *)
Theorem isJSONValue_array_first_rejection fuel h l o pre x post :
  lookup h l = Some o -> o_kind o = KArray (pre ++ x :: post) ->
  excluded_instance h (VRef l) = false -> get_every h l = EveryBuiltin ->
  Forall (fun y => isJSONValue fuel h y = Ret true) pre ->
  isJSONValue fuel h x = Ret false ->
  isJSONValue (S fuel) h (VRef l) = Ret false.
Proof.
  intros Hl Hk Hx He Hpre Hfalse. rewrite isJSONValue_ref, Hl. unfold is_callable.
  rewrite Hk, Hx, He. clear Hk. induction Hpre as [|y r Hy _ IH]; simpl; [rewrite Hfalse; reflexivity|].
  rewrite Hy. exact IH.
Qed.

Lemma NoDup_snoc (ks : list string) k : NoDup ks -> ~ In k ks -> NoDup (ks ++ [k])%list.
Proof.
  induction 1 as [|x r Hx Hr IH]; intros Hk; simpl.
  - constructor; [intros []|constructor].
  - constructor.
    + intros H. apply in_app_or in H as [H|[E|[]]]; [exact (Hx H)|]. apply Hk. left. symmetry. exact E.
    + apply IH. intros H. apply Hk. right. exact H.
Qed.

Lemma fold_add_key_nodup ks acc : NoDup acc -> NoDup (fold_left add_key ks acc).
Proof.
  revert acc. induction ks as [|k r IH]; intros acc Hacc; [exact Hacc|].
  simpl. apply IH. unfold add_key. destruct (existsb (String.eqb k) acc) eqn:E; [exact Hacc|].
  apply NoDup_snoc; [exact Hacc|]. intros Hin.
  assert (existsb (String.eqb k) acc = true) as Ht.
  { apply existsb_exists. exists k. split; [exact Hin|apply String.eqb_refl]. }
  rewrite Ht in E. discriminate E.
Qed.

(** X9: the object decoded from a literal without variables, enum values
    or fields named [__proto__] or [constructor] is the fresh location
    [length h], and its own keys are the field names in the order of
    their first occurrence, each once: a repeated field keeps the position
    of its first occurrence. *)
Theorem parseLiteral_object_keys fs h :
  plain_literal (ObjectValue fs) = true -> realm_prefix h ->
  exists h' ps, parseLiteral (ObjectValue fs) h = (Ret (VRef (length h)), h') /\
    lookup h' (length h) = Some (mkObj (VRef loc_ObjectProto) KOrdinary ps) /\
    map fst ps = fold_left add_key (map fst fs) [] /\ NoDup (map fst ps).
Proof.
  intros Hp Hr.
  assert (Hall : Forall (fun f => fst f <> "__proto__" /\ fst f <> "constructor" /\
                                 decodes (snd f)) fs).
  { simpl in Hp. clear Hr. induction fs as [|[name n] r IHr]; [constructor|].
    cbn [forallb fst snd] in Hp. apply andb_prop in Hp as [Hp1 Hpr].
    apply andb_prop in Hp1 as [Hp1 Hpn]. apply andb_prop in Hp1 as [Hpp Hpc].
    apply negb_true_iff, String.eqb_neq in Hpp, Hpc.
    constructor; [|apply IHr; exact Hpr]. cbn [fst snd].
    split; [exact Hpp|]. split; [exact Hpc|]. apply parseLiteral_decodes. exact Hpn. }
  assert (Hr0 : realm_prefix (h ++ [plain_object])%list).
  { eapply realm_prefix_grow; [exact Hr| rewrite length_app; lia|].
    intros i Hi. apply nth_error_app1. exact Hi. }
  assert (Hlen0 : (S (length h) <= length (h ++ [plain_object]))%nat).
  { rewrite length_app. simpl. lia. }
  assert (Hlook0 : nth_error (h ++ [plain_object])%list (length h) =
                   Some (mkObj (VRef loc_ObjectProto) KOrdinary [])).
  { rewrite nth_error_app2, Nat.sub_diag by lia. reflexivity. }
  destruct (set_fields_decodes fs Hall (length h) (proj1 Hr) _ [] Hr0 Hlen0 Hlook0
              (fun H => H) (DP_nil _ _ _)) as [hf [ps [Ef [_ [Hlf [_ [_ Hks]]]]]]].
  exists hf, ps. split.
  - rewrite parseLiteral_ObjectValue. unfold mbind, alloc_M, alloc. cbv beta iota. exact Ef.
  - split; [exact Hlf|]. split; [exact Hks|]. rewrite Hks. apply fold_add_key_nodup. constructor.
Qed.

End JSONScalar.

Arguments Ret {A} a.
Arguments Throw {A} e.
Arguments VUndef {number}.
Arguments VNull {number}.
Arguments VBool {number} b.
Arguments VNum {number} n.
Arguments VStr {number} s.
Arguments VSym {number} id.
Arguments VBigInt {number} z.
Arguments VRef {number} l.
Arguments FnToISOString {number}.
Arguments FnUser {number} result.
Arguments KOrdinary {number}.
Arguments KArray {number} elems.
Arguments KFunction {number} f.
Arguments KDate {number} tv.
Arguments mkProp {number} p_value p_writable p_enumerable.
Arguments mkObj {number} o_proto o_kind o_props.
Arguments builtin_prop {number} v.
Arguments data_prop {number} v.
Arguments realm {number}.
Arguments cyclic_heap {number}.
Arguments isJSONValue {number} number_truthy fuel h v.
Arguments serialize {number} number_truthy js_String fuel h v.
Arguments parseValue {number} number_truthy js_String fuel h v.
Arguments get {number} h v k.
Arguments instanceof {number} h v proto.
Arguments json_domain {number} h _.
Arguments acyclic {number} h _.
Arguments returns {number} number_truthy h v b.
Arguments get_every {number} h l.
Arguments every {number} f xs.
Arguments builtin_every {number} h.
Arguments EveryBuiltin {number}.
Arguments EveryValue {number} m.
Arguments parseLiteral {number} parseInt10 parseFloat ast _.
Arguments realm_prefix {number} h.
Arguments excluded_instance {number} h v.
Arguments constructor_ok {number} h v.
Arguments is_array_kind {number} k.
Arguments is_callable {number} o.
Arguments object_values {number} o.
Arguments own_prop {number} o k.
Arguments lookup {number} h l.

(** ** Concrete inputs

    JavaScript numbers are instantiated by [Z] with a digit parser and
    ToBoolean, and [String(value)] by a renderer that covers the values
    used below. *)

Definition num_of_digits (s : string) : Z :=
  match digits_val s 0 with Some z => z | None => 0 end.

Definition z_truthy (z : Z) : bool := negb (Z.eqb z 0).

Definition render (h : heap Z) (v : value Z) : outcome string :=
  match v with
  | VUndef => Ret "undefined"
  | VNull => Ret "null"
  | VStr s => Ret s
  | _ => Ret "[object Object]"
  end.

(** [[1, undefined, 3]] at location 12. *)
Definition heap_with_undefined : heap Z :=
  (realm ++ [mkObj (VRef loc_ArrayProto) (KArray [VNum 1; VUndef; VNum 3]) []])%list.

(** [{a: 1, b: [true, null]}] at locations 12 and 13. *)
Definition heap_nested : heap Z :=
  (realm ++ [mkObj (VRef loc_ObjectProto) KOrdinary
               [("a", data_prop (VNum 1)); ("b", data_prop (VRef 13%nat))];
             mkObj (VRef loc_ArrayProto) (KArray [VBool true; VNull]) []])%list.


(** [new Date("not a date")] at location 12. *)
Definition heap_invalid_date : heap Z :=
  (realm ++ [mkObj (VRef loc_DateProto) (KDate None) []])%list.

(** [new Date("2023-01-01T00:00:00.000Z")] at location 12. *)
Definition heap_date_2023 : heap Z :=
  (realm ++ [mkObj (VRef loc_DateProto) (KDate (Some 1672531200000)) []])%list.

(** [class MyArr extends Array {}]: the prototype at 12, the constructor
    at 13, and [MyArr.from([1, "a"])] at 14. *)
Definition heap_array_subclass : heap Z :=
  (realm ++ [mkObj (VRef loc_ArrayProto) KOrdinary
               [("constructor", builtin_prop (VRef 13%nat))];
             mkObj (VRef loc_FunctionProto) (KFunction (FnUser (Ret VUndef)))
               [("prototype", mkProp (VRef 12%nat) false false)];
             mkObj (VRef 12%nat) (KArray [VNum 1; VStr "a"]) []])%list.

(** [class A extends Array { every() { return false; } }]: the prototype
    at 12 with its method at 15, the constructor at 13, and
    [A.from([1, "a"])] at 14. *)
Definition heap_array_subclass_every : heap Z :=
  (realm ++ [mkObj (VRef loc_ArrayProto) KOrdinary
               [("constructor", builtin_prop (VRef 13%nat));
                ("every", builtin_prop (VRef 15%nat))];
             mkObj (VRef loc_FunctionProto) (KFunction (FnUser (Ret VUndef)))
               [("prototype", mkProp (VRef 12%nat) false false)];
             mkObj (VRef 12%nat) (KArray [VNum 1; VStr "a"]) [];
             mkObj (VRef loc_FunctionProto) (KFunction (FnUser (Ret (VBool false)))) []])%list.

(** [a = [undefined]; a.every = () => true]: the array at 12, the arrow
    function at 13. *)
Definition heap_own_every_true : heap Z :=
  (realm ++ [mkObj (VRef loc_ArrayProto) (KArray [VUndef]) [("every", data_prop (VRef 13%nat))];
             mkObj (VRef loc_FunctionProto) (KFunction (FnUser (Ret (VBool true)))) []])%list.


Lemma heap_with_undefined_acyclic : acyclic heap_with_undefined (VRef 12%nat).
Proof.
  eapply AC_ref; [reflexivity|]. simpl.
  repeat constructor; intros l Hl; discriminate Hl.
Qed.


(** ** Witnesses and counterexamples *)

(** C1, witness: [[1, undefined, 3]] is outside the domain, and the
    validator returns [false] on it. *)
Lemma isJSONValue_decides_domain_witness :
  builtin_every heap_with_undefined = true /\
  ~ json_domain heap_with_undefined (VRef 12%nat) /\
  returns z_truthy heap_with_undefined (VRef 12%nat) false.
Proof.
  assert (Hb : builtin_every heap_with_undefined = true) by reflexivity.
  assert (Hnd : ~ json_domain heap_with_undefined (VRef 12%nat)).
  { intros Hd.
    apply (proj1 (proj1 (isJSONValue_decides_domain Z z_truthy heap_with_undefined (VRef 12%nat) Hb)))
      in Hd.
    destruct Hd as [n Hn]. specialize (Hn (3 + n)%nat ltac:(lia)).
    simpl in Hn. discriminate Hn. }
  split; [exact Hb|]. split; [exact Hnd|].
  exact (proj2 (isJSONValue_decides_domain Z z_truthy heap_with_undefined (VRef 12%nat) Hb)
           heap_with_undefined_acyclic Hnd).
Defined.

(** C1, counterexample: the array [[undefined]] with its own
    [every = () => true] is outside the domain, yet the validator accepts
    it at any stack depth; and the array [[c]] where [c = {self: c}] is
    outside the domain, yet the validator never returns [false] on it: it
    overflows the stack whatever its depth. *)
Lemma isJSONValue_domain_counterexample :
  (~ json_domain heap_own_every_true (VRef 12%nat) /\
   forall fuel, isJSONValue z_truthy (S fuel) heap_own_every_true (VRef 12%nat) = Ret true) /\
  (~ json_domain (number:=Z) cyclic_heap (VRef 13%nat) /\
   ~ (exists fuel, isJSONValue z_truthy fuel cyclic_heap (VRef 13%nat) = Ret false)).
Proof.
  split; [split|split].
  - intros Hd. inversion Hd as [| | | |l o es Hl Hk Hx Ha|l o Hl Hc Ha Hx Hok Hv]; subst.
    + simpl in Hl. injection Hl as <-. simpl in Hk. injection Hk as <-.
      inversion Ha as [|v vs Hu _]. inversion Hu.
    + simpl in Hl. injection Hl as <-. discriminate Ha.
  - intros fuel. reflexivity.
  - intros Hd. destruct (domain_returns_true Z z_truthy cyclic_heap _ eq_refl Hd) as [n Hn].
    specialize (Hn n (le_n n)). rewrite container_of_cycle_throws in Hn. discriminate Hn.
  - intros [fuel Hf]. rewrite container_of_cycle_throws in Hf. discriminate Hf.
Qed.

(** C4, witness: [{a: 1, b: [true, null]}] is returned as it is. *)
Lemma serialize_identity_witness :
  isJSONValue z_truthy 4 heap_nested (VRef 12%nat) = Ret true /\
  serialize z_truthy render 4 heap_nested (VRef 12%nat) = Ret (VRef 12%nat) /\
  parseValue z_truthy render 4 heap_nested (VRef 12%nat) = Ret (VRef 12%nat).
Proof.
  assert (H : isJSONValue z_truthy 4 heap_nested (VRef 12%nat) = Ret true) by reflexivity.
  split; [exact H|]. exact (serialize_identity Z z_truthy render 4 heap_nested (VRef 12%nat) H).
Defined.



(** C6, counterexample: an invalid Date is date-like, and [serialize]
    throws a [RangeError] instead of returning a timestamp string. *)
Lemma serialize_invalid_date :
  instanceof heap_invalid_date (VRef 12%nat) loc_DateProto = true /\
  serialize z_truthy render 3 heap_invalid_date (VRef 12%nat) = Throw (RangeError "Invalid time value").
Proof. split; reflexivity. Qed.

(** C6, witness: the Date of the test suite serializes to its ISO string. *)
Lemma serialize_date_witness :
  serialize z_truthy render 2 heap_date_2023 (VRef 12%nat) = Ret (VStr "2023-01-01T00:00:00.000Z").
Proof.
  destruct (serialize_date Z z_truthy render 1%nat heap_date_2023 (VRef 12%nat) eq_refl)
    as [_ [_ [Hok _]]].
  destruct (Hok 12%nat (mkObj (VRef loc_DateProto) (KDate (Some 1672531200000)) [])
              1672531200000 eq_refl eq_refl eq_refl ltac:(vm_compute; discriminate)
              (conj eq_refl (ex_intro _ _ (conj eq_refl eq_refl)))) as [H _].
  exact H.
Defined.

(** C7, witness: an enum value is rejected. *)
Lemma parseLiteral_unsupported_witness :
  parseLiteral num_of_digits num_of_digits (EnumValue "RED") realm
  = (Throw (TypeError (literal_message "EnumValue")), realm).
Proof.
  exact (proj1 (parseLiteral_unsupported Z num_of_digits num_of_digits (EnumValue "RED") realm
                  eq_refl)).
Defined.



(** C10, witness: an instance of [class MyArr extends Array {}] whose
    constructor is [MyArr], with JSON elements, is accepted and returned. *)
Lemma isJSONValue_array_ignores_constructor_witness :
  get heap_array_subclass (VRef 14%nat) "constructor" = VRef 13%nat /\
  isJSONValue z_truthy 3 heap_array_subclass (VRef 14%nat) = Ret true /\
  serialize z_truthy render 3 heap_array_subclass (VRef 14%nat) = Ret (VRef 14%nat).
Proof.
  destruct (isJSONValue_array_ignores_constructor Z z_truthy render 2 heap_array_subclass 14%nat
              (mkObj (VRef 12%nat) (KArray [VNum 1; VStr "a"]) []) [VNum 1; VStr "a"]
              eq_refl eq_refl eq_refl) as [Heq Hser].
  split; [reflexivity|]. split.
  - rewrite Heq. reflexivity.
  - exact (proj1 (Hser eq_refl eq_refl)).
Defined.

(** C10, counterexample: an instance of
    [class A extends Array { every() { return false; } }] with the JSON
    elements [1, "a"] is rejected, and [serialize] throws. *)
Lemma isJSONValue_array_subclass_every_rejected :
  every (isJSONValue z_truthy 2 heap_array_subclass_every) [VNum 1; VStr "a"] = Ret true /\
  isJSONValue z_truthy 3 heap_array_subclass_every (VRef 14%nat) = Ret false /\
  serialize z_truthy render 3 heap_array_subclass_every (VRef 14%nat)
  = Throw (TypeError (reject_message "[object Object]")).
Proof. split; [|split]; reflexivity. Qed.

(** ** Witnesses of the further properties *)

(** [{a: 1, b: "test"}], a literal of the test suite. *)
Definition literal_ab : valueNode :=
  ObjectValue [("a", IntValue "1"); ("b", StringValue "test")].

(** [{a: 1, b: [$v]}]: a variable inside a list inside an object. *)
Definition literal_nested_variable : valueNode :=
  ObjectValue [("a", IntValue "1"); ("b", ListValue [VariableNode "v"])].

(** [{b: 1, a: 2, b: 3}]: a repeated field. *)
Definition literal_repeated_field : valueNode :=
  ObjectValue [("b", IntValue "1"); ("a", IntValue "2"); ("b", IntValue "3")].

(** [class TestClass {}]: the prototype at 12, the constructor at 13, and
    an instance at 14 holding itself in a property. *)
Definition heap_class_instance : heap Z :=
  (realm ++ [mkObj (VRef loc_ObjectProto) KOrdinary [("constructor", builtin_prop (VRef 13%nat))];
             mkObj (VRef loc_FunctionProto) (KFunction (FnUser (Ret VUndef)))
               [("prototype", mkProp (VRef 12%nat) false false)];
             mkObj (VRef 12%nat) KOrdinary [("self", data_prop (VRef 14%nat))]])%list.

(** [Object.create(null)] with an enumerable [a: 1] and a non-enumerable
    [b: undefined], at 12. *)
Definition heap_null_proto : heap Z :=
  (realm ++ [mkObj VNull KOrdinary [("a", data_prop (VNum 1)); ("b", builtin_prop VUndef)]])%list.

(** [c = {self: c}] at 12 and [[undefined, c]] at 13. *)
Definition heap_undefined_then_cycle : heap Z :=
  (realm ++ [mkObj (VRef loc_ObjectProto) KOrdinary [("self", data_prop (VRef 12%nat))];
             mkObj (VRef loc_ArrayProto) (KArray [VUndef; VRef 12%nat]) []])%list.

(** X1, witness: [{a: 1, b: "test"}] decodes to a fresh object that the
    validator and [serialize] accept. *)
Lemma parseLiteral_plain_accepted_witness :
  exists v h', parseLiteral num_of_digits num_of_digits literal_ab realm = (Ret v, h') /\
    (forall l, v = VRef l -> (length (realm (number:=Z)) <= l)%nat) /\
    json_domain h' v /\ returns z_truthy h' v true /\
    exists n, forall fuel, (n <= fuel)%nat ->
      serialize z_truthy render fuel h' v = Ret v /\ parseValue z_truthy render fuel h' v = Ret v.
Proof.
  apply (parseLiteral_plain_accepted Z num_of_digits num_of_digits z_truthy render literal_ab realm).
  - reflexivity.
  - split; [simpl; lia|intros i Hi; reflexivity].
Defined.

(** X3, witness: a variable two levels deep makes the decoding throw. *)
Lemma parseLiteral_nested_unsupported_witness :
  exists msg, fst (parseLiteral num_of_digits num_of_digits literal_nested_variable realm)
              = Throw (TypeError msg).
Proof.
  apply (parseLiteral_nested_unsupported Z num_of_digits num_of_digits
           literal_nested_variable realm).
  reflexivity.
Defined.

(** X4, witness: a class instance is rejected although it is cyclic. *)
Lemma isJSONValue_rejects_non_plain_witness :
  isJSONValue z_truthy 1 heap_class_instance (VRef 14%nat) = Ret false.
Proof.
  apply (isJSONValue_rejects_non_plain Z z_truthy 0 heap_class_instance 14%nat
           (mkObj (VRef 12%nat) KOrdinary [("self", data_prop (VRef 14%nat))])).
  - reflexivity.
  - right. right. split; reflexivity.
Defined.

(** X5, witness: the null-prototype object is accepted; its non-enumerable
    [undefined] is not looked at. *)
Lemma isJSONValue_null_prototype_witness :
  isJSONValue z_truthy 2 heap_null_proto (VRef 12%nat) = Ret true.
Proof.
  rewrite (isJSONValue_null_prototype Z z_truthy 1 heap_null_proto 12%nat
             (mkObj VNull KOrdinary [("a", data_prop (VNum 1)); ("b", builtin_prop VUndef)])
             eq_refl eq_refl eq_refl eq_refl).
  reflexivity.
Defined.

(** X6, witness: [serialize] returns [{a: 1, b: [true, null]}] itself,
    which the validator accepts. *)
Lemma converters_return_only_validated_witness :
  VRef (number:=Z) 12%nat = VRef 12%nat /\ isJSONValue z_truthy 4 heap_nested (VRef 12%nat) = Ret true.
Proof.
  apply (converters_return_only_validated Z z_truthy render 4 heap_nested (VRef 12%nat) (VRef 12%nat)).
  - reflexivity.
  - left. reflexivity.
Defined.

(** X7, witness: [[undefined, c]] with [c = {self: c}] is rejected instead
    of overflowing the stack. *)
Lemma isJSONValue_array_first_rejection_witness :
  isJSONValue z_truthy 50 heap_undefined_then_cycle (VRef 13%nat) = Ret false.
Proof.
  apply (isJSONValue_array_first_rejection Z z_truthy 49 heap_undefined_then_cycle 13%nat
           (mkObj (VRef loc_ArrayProto) (KArray [VUndef; VRef 12%nat]) []) [] VUndef [VRef 12%nat]).
  - reflexivity.
  - reflexivity.
  - reflexivity.
  - reflexivity.
  - constructor.
  - reflexivity.
Defined.

(** X9, witness: [{b: 1, a: 2, b: 3}] has the own keys [b], [a]. *)
Lemma parseLiteral_object_keys_witness :
  fold_left add_key ["b"; "a"; "b"] [] = ["b"; "a"] /\
  exists h' ps,
    parseLiteral num_of_digits num_of_digits literal_repeated_field realm
    = (Ret (VRef (length (realm (number:=Z)))), h') /\
    lookup h' (length (realm (number:=Z))) = Some (mkObj (VRef loc_ObjectProto) KOrdinary ps) /\
    map fst ps = fold_left add_key ["b"; "a"; "b"] [] /\ NoDup (map fst ps).
Proof.
  split; [reflexivity|].
  apply (parseLiteral_object_keys Z num_of_digits num_of_digits
           [("b", IntValue "1"); ("a", IntValue "2"); ("b", IntValue "3")] realm).
  - reflexivity.
  - split; [simpl; lia|intros i Hi; reflexivity].
Defined.
